(** * Shallow embedding of the agent supervisor, provider runtime registry,
    stream normaliser, usage indexer and mobile-sync broker of opcode
    (src-tauri/src), with the properties stated for them. *)

From Stdlib Require Import String Ascii List ZArith Bool Lia.
Import ListNotations.
Local Open Scope string_scope.
Local Open Scope list_scope.

(** Rust's [Result<T, E>]. *)
Inductive result (T E : Type) : Type :=
| Ok : T -> result T E
| Err : E -> result T E.
Arguments Ok {T E} _.
Arguments Err {T E} _.

(** ** ASCII string helpers (str::trim, to_ascii_lowercase, contains, ...) *)
Module Str.

(** [char::is_whitespace] restricted to ASCII: tab, LF, VT, FF, CR, space. *)
Definition is_ws (a : ascii) : bool :=
  let n := nat_of_ascii a in (((9 <=? n) && (n <=? 13)) || (n =? 32))%nat.

Fixpoint drop_ws (l : list ascii) : list ascii :=
  match l with
  | [] => []
  | a :: r => if is_ws a then drop_ws r else l
  end.

(** [str::trim]: strip leading and trailing whitespace. *)
Definition trim (s : string) : string :=
  string_of_list_ascii
    (rev (drop_ws (rev (drop_ws (list_ascii_of_string s))))).

Definition lower_ascii (a : ascii) : ascii :=
  let n := nat_of_ascii a in
  if ((65 <=? n) && (n <=? 90))%nat then ascii_of_nat (n + 32)%nat else a.

(** [str::to_ascii_lowercase] (and [to_lowercase] on ASCII input). *)
Definition to_ascii_lowercase (s : string) : string :=
  string_of_list_ascii (map lower_ascii (list_ascii_of_string s)).

(** [str::eq_ignore_ascii_case]. *)
Definition eq_ignore_ascii_case (a b : string) : bool :=
  String.eqb (to_ascii_lowercase a) (to_ascii_lowercase b).

Definition is_empty (s : string) : bool := String.eqb s EmptyString.

(** The double-quote character as a one-character string. *)
Definition dq : string := String (ascii_of_nat 34%nat) EmptyString.

Fixpoint prefixb (p s : list ascii) : bool :=
  match p, s with
  | [], _ => true
  | _ :: _, [] => false
  | a :: p', b :: s' => Ascii.eqb a b && prefixb p' s'
  end.

Fixpoint containsb_l (s p : list ascii) : bool :=
  prefixb p s || match s with [] => false | _ :: s' => containsb_l s' p end.

(** [str::contains] with a string pattern. *)
Definition contains (s p : string) : bool :=
  containsb_l (list_ascii_of_string s) (list_ascii_of_string p).

(** [[&str]::join] *)
Fixpoint join (sep : string) (l : list string) : string :=
  match l with
  | [] => EmptyString
  | [x] => x
  | x :: r => x ++ sep ++ join sep r
  end%string.

End Str.

(** ** Provider runtime registry (providers/runtime.rs, claude.rs, codex.rs,
    aider.rs, opencode.rs) *)
Module Runtime.
Import Str.

Inductive ProviderCommandKind := Execute | Continue | Resume.

Record ProviderCommandRequest := {
  kind : ProviderCommandKind;
  prompt : string;
  model : string;
  session_id : option string;
  reasoning_effort : option string
}.

(** [append_optional_model_arg] *)
Definition append_optional_model_arg (args : list string) (model : string)
  : list string :=
  let trimmed := trim model in
  if is_empty trimmed || eq_ignore_ascii_case trimmed "default" then args
  else args ++ ["--model"; trimmed].

(** [sanitize_reasoning_effort] *)
Definition sanitize_reasoning_effort (reasoning_effort : option string)
  : option string :=
  match reasoning_effort with
  | None => None
  | Some v =>
      let t := trim v in
      if is_empty t then None
      else
        let value := to_ascii_lowercase t in
        if existsb (String.eqb value)
             ["none"; "minimal"; "low"; "medium"; "high"; "xhigh"]
        then Some value else None
  end.

(** [providers::claude::build_args] *)
Definition claude_build_args (request : ProviderCommandRequest)
  : result (list string) string :=
  let head :=
    match request.(kind) with
    | Execute => Ok ["-p"; request.(prompt)]
    | Continue => Ok ["-c"; "-p"; request.(prompt)]
    | Resume =>
        match request.(session_id) with
        | Some sid =>
            let sid := trim sid in
            if is_empty sid
            then Err "Missing provider session id for resume"
            else Ok ["--resume"; sid; "-p"; request.(prompt)]
        | None => Err "Missing provider session id for resume"
        end
    end in
  match head with
  | Err e => Err e
  | Ok args =>
      Ok (append_optional_model_arg args request.(model)
          ++ ["--output-format"; "stream-json"; "--verbose";
              "--dangerously-skip-permissions"])
  end.

Definition claude_models : list string :=
  ["default"; "sonnet"; "opus"; "haiku"; "claude"].

(** [providers::codex::build_args] *)
Definition codex_build_args (request : ProviderCommandRequest)
  : result (list string) string :=
  let args := ["exec"; "--json"; request.(prompt)] in
  let args :=
    if negb (is_empty request.(model))
       && negb (existsb (fun value =>
                  contains (to_ascii_lowercase request.(model)) value)
                  claude_models)
    then args ++ ["--model"; request.(model)] else args in
  let args :=
    match sanitize_reasoning_effort request.(reasoning_effort) with
    | Some effort =>
        args ++ ["-c"; "model_reasoning_effort=" ++ dq ++ effort ++ dq]%string
    | None => args
    end in
  Ok args.

(** [providers::aider::build_args] *)
Definition aider_build_args (request : ProviderCommandRequest)
  : result (list string) string :=
  Ok (append_optional_model_arg ["--message"; request.(prompt); "--yes"]
        request.(model)).

(** [providers::opencode::build_args] *)
Definition opencode_build_args (request : ProviderCommandRequest)
  : result (list string) string :=
  Ok (append_optional_model_arg ["run"; request.(prompt)] request.(model)).

End Runtime.

(** ** Agent supervisor argv builder (commands/agents.rs, [build_provider_args]) *)
Module AgentArgs.
Import Str.

Definition unwrap_or (o : option string) (d : string) : string :=
  match o with Some s => s | None => d end.

(** [build_provider_args] of the desktop agent supervisor; [execute_agent]
    passes [Some agent.system_prompt] as [system_prompt]. *)
Definition build_provider_args (provider_id task model : string)
  (system_prompt reasoning_effort : option string) : list string :=
  let model := trim model in
  let has_explicit_model :=
    negb (is_empty model) && negb (eq_ignore_ascii_case model "default") in
  let model_args := if has_explicit_model then ["--model"; model] else [] in
  if String.eqb provider_id "claude" then
    ["-p"; task; "--system-prompt"; unwrap_or system_prompt EmptyString]
    ++ model_args
    ++ ["--output-format"; "stream-json"; "--verbose";
        "--dangerously-skip-permissions"]
  else if String.eqb provider_id "codex" then
    ["exec"; "--json"; task] ++ model_args
    ++ match Runtime.sanitize_reasoning_effort reasoning_effort with
       | Some effort => ["-c"; "model_reasoning_effort=" ++ dq ++ effort ++ dq]%string
       | None => []
       end
  else if String.eqb provider_id "aider" then
    ["--message"; task; "--yes"] ++ model_args
  else if String.eqb provider_id "gemini" then
    ["--prompt"; task; "--approval-mode"; "yolo"; "--output-format";
     "stream-json"] ++ model_args
  else if String.eqb provider_id "goose" then
    ["run"; "--text"; task; "--no-session"; "--output-format";
     "stream-json"] ++ model_args
  else if String.eqb provider_id "opencode" then
    ["run"; task] ++ model_args
  else [task].

End AgentArgs.

(** The [--model] rule as the spec words it: a [--model <trimmed model>] pair
    exactly when the trimmed model is non-empty and not case-insensitively
    [default]. *)
Definition spec_model_flag (m : string) : list string :=
  let t := Str.trim m in
  if Str.is_empty t || Str.eq_ignore_ascii_case t "default" then []
  else ["--model"; t].

(** The claude tail shared by every kind of request. *)
Definition claude_tail : list string :=
  ["--output-format"; "stream-json"; "--verbose";
   "--dangerously-skip-permissions"].

(** The codex reasoning-effort suffix. *)
Definition codex_effort_args (e : option string) : list string :=
  match Runtime.sanitize_reasoning_effort e with
  | Some effort => ["-c"; "model_reasoning_effort=" ++ Str.dq ++ effort ++ Str.dq]%string
  | None => []
  end.

(** ** Agent process supervisor: the monitor task of [spawn_agent_system]
    (commands/agents.rs) *)
Module Supervisor.

(** A child's [ExitStatus]: an exit code, or termination by a signal (no
    code). *)
Inductive ExitStatus := Exited (code : Z) | Signaled.

(** [ExitStatus::success] *)
Definition success (st : ExitStatus) : bool :=
  match st with Exited c => Z.eqb c 0 | Signaled => false end.

(** [ExitStatus::code] *)
Definition code (st : ExitStatus) : option Z :=
  match st with Exited c => Some c | Signaled => None end.

(** The persisted [agent_runs] row of the run. *)
Record RunRow := {
  row_status : string;
  row_output : string;
  row_session_id : string;
  row_completed_at_set : bool
}.

(** Event channels: the generic name and the run-scoped [name:<run_id>]. *)
Inductive Channel := Generic (name : string) | Scoped (name : string) (run_id : Z).

Inductive Signal := SIGTERM | SIGKILL.

(** Outcome of running [kill -TERM <pid>]: success, a non-zero exit, or a
    failure to run the command at all. *)
Inductive KillCmd := KillOk | KillNonZero | KillSpawnError.

(** The state the monitor task touches: the run's row, whether the run is
    registered in the process registry, the events emitted (with their
    boolean payload) and the signals sent to the pid. *)
Record SupState := {
  row : RunRow;
  registered : bool;
  emitted : list (Channel * bool);
  (** the [kill -<SIG> <pid>] commands issued *)
  signals : list Signal
}.

(** What the monitor observes of the outside world. *)
Record MonitorInput := {
  provider_id : string;
  run_id : Z;
  (** the 100 ms poll index at which the stdout task has stored
      [first_output = true], if ever *)
  first_stdout_tick : option nat;
  kill_term_result : KillCmd;
  (** result of [child.wait()] *)
  wait_result : result ExitStatus string;
  extracted_session_id : string;
  initial_session_id : string;
  live_output : string
}.

(** [first_output] is created as [provider_id != "claude"]; the stdout task
    sets it on its first line. *)
Definition first_output_at (inp : MonitorInput) (i : nat) : bool :=
  negb (String.eqb inp.(provider_id) "claude")
  || match inp.(first_stdout_tick) with
     | Some t => Nat.leb t i
     | None => false
     end.

Inductive PollOutcome := Detected (tick : nat) | TimedOut | LoopEnded.

(** [for i in 0..300 { if first_output { break } if i == 299 { timeout } sleep }] *)
Fixpoint poll (inp : MonitorInput) (fuel i : nat) : PollOutcome :=
  match fuel with
  | O => LoopEnded
  | S fuel' =>
      if first_output_at inp i then Detected i
      else if Nat.eqb i 299 then TimedOut
      else poll inp fuel' (S i)
  end.

Definition update_if_running (r : RunRow) (r' : RunRow) : RunRow :=
  if String.eqb r.(row_status) "running" then r' else r.

(** Timeout branch: [kill -TERM], [kill -KILL] only when the TERM command
    exits non-zero; [UPDATE ... status = 'failed' WHERE ... status =
    'running']; unregister; emit [false] on both channels. *)
Definition on_timeout (inp : MonitorInput) (st : SupState) : SupState :=
  let sent :=
    match inp.(kill_term_result) with
    | KillOk => [SIGTERM]
    | KillNonZero => [SIGTERM; SIGKILL]
    | KillSpawnError => [SIGTERM]
    end in
  {| row := update_if_running st.(row)
              {| row_status := "failed"; row_output := inp.(live_output);
                 row_session_id := st.(row).(row_session_id);
                 row_completed_at_set := true |};
     registered := false;
     emitted := st.(emitted) ++ [(Generic "agent-complete", false);
                                 (Scoped "agent-complete" inp.(run_id), false)];
     signals := st.(signals) ++ sent |}.

(** Normal branch: wait for the child, [process_success] is
    [status.success()] (false on a wait error), one guarded UPDATE with the
    final session id, output and status, unregister, emit
    [process_success] on both channels. *)
Definition on_exit (inp : MonitorInput) (st : SupState) : SupState :=
  let process_success :=
    match inp.(wait_result) with Ok s => success s | Err _ => false end in
  let final_session_id :=
    if Str.is_empty inp.(extracted_session_id) then inp.(initial_session_id)
    else inp.(extracted_session_id) in
  {| row := update_if_running st.(row)
              {| row_status := if process_success then "completed" else "failed";
                 row_output := inp.(live_output);
                 row_session_id := final_session_id;
                 row_completed_at_set := true |};
     registered := false;
     emitted := st.(emitted) ++ [(Generic "agent-complete", process_success);
                                 (Scoped "agent-complete" inp.(run_id), process_success)];
     signals := st.(signals) |}.

(** The monitor task spawned by [spawn_agent_system]. *)
Definition monitor (inp : MonitorInput) (st : SupState) : SupState :=
  match poll inp 300 0 with
  | TimedOut => on_timeout inp st
  | Detected _ | LoopEnded => on_exit inp st
  end.

End Supervisor.

(** ** Cancellation: [kill_agent_session] (commands/agents.rs) *)
Module Cancel.
Import Supervisor.

(** The columns of the [agent_runs] row the command reads and writes. *)
Record KRow := { k_status : string; k_output : string; k_pid : option Z }.

(** The outcomes of the process-registry calls ([kill_process(run_id)],
    [kill_process_by_pid(run_id, pid)]) and the registry's live output. *)
Record KillInput := {
  k_run_id : Z;
  registry_kill : result bool string;
  pid_kill : result bool string;
  registry_live_output : string
}.

Record KillState := {
  krow : option KRow;                 (** the row with [id = run_id], if any *)
  kevents : list (Channel * bool);
  pid_kills : list Z                  (** pids passed to [kill_process_by_pid] *)
}.

(** rusqlite's [query_row] error when the SELECT yields no row. *)
Definition query_returned_no_rows : string := "Query returned no rows".

(** [SELECT pid FROM agent_runs WHERE id = ?1 AND status = 'running'] *)
Definition select_running_pid (r : option KRow) : result (option Z) string :=
  match r with
  | Some row => if String.eqb row.(k_status) "running" then Ok row.(k_pid)
                else Err query_returned_no_rows
  | None => Err query_returned_no_rows
  end.

(** The fallback of [kill_agent_session] when the registry kill did not
    succeed: look the pid up in the row ([?] propagates a failed query) and
    call [kill_process_by_pid] on it ([?] propagates its error too). *)
Definition fallback_kill (inp : KillInput) (st : KillState)
  : result KillState (KillState * string) :=
  match select_running_pid st.(krow) with
  | Err e => Err (st, e)
  | Ok None => Ok st
  | Ok (Some pid) =>
      let st1 := {| krow := st.(krow); kevents := st.(kevents);
                    pid_kills := st.(pid_kills) ++ [pid] |} in
      match inp.(pid_kill) with
      | Err e => Err (st1, e)
      | Ok _ => Ok st1
      end
  end.

(** [UPDATE agent_runs SET status = 'cancelled', output = CASE WHEN ?2 != ''
    THEN ?2 ELSE output END, completed_at = CURRENT_TIMESTAMP WHERE id = ?1
    AND status = 'running'], returning the new row and whether a row changed. *)
Definition update_cancelled (live : string) (r : option KRow) : option KRow * bool :=
  match r with
  | Some row =>
      if String.eqb row.(k_status) "running"
      then (Some {| k_status := "cancelled";
                    k_output := if Str.is_empty live then row.(k_output) else live;
                    k_pid := row.(k_pid) |}, true)
      else (Some row, false)
  | None => (None, false)
  end.

Definition kill_agent_session (inp : KillInput) (st : KillState)
  : KillState * result bool string :=
  let killed_via_registry :=
    match inp.(registry_kill) with Ok b => b | Err _ => false end in
  let pre := if killed_via_registry then Ok st else fallback_kill inp st in
  match pre with
  | Err (st1, e) => (st1, Err e)
  | Ok st1 =>
      let (row', updated) := update_cancelled inp.(registry_live_output) st1.(krow) in
      ({| krow := row';
          kevents := st1.(kevents) ++ [(Scoped "agent-cancelled" inp.(k_run_id), true)];
          pid_kills := st1.(pid_kills) |},
       Ok (updated || killed_via_registry))
  end.

End Cancel.

(** ** Mobile-sync broker: [MobileSyncCache] (mobile_sync/state_cache.rs) *)
Module Broker.
Local Open Scope Z_scope.

Definition u64_modulus : Z := 2 ^ 64.

(** Payloads the broker itself builds; anything else is kept opaque. *)
Inductive Payload :=
| PSequence (n : Z)
| PResnapshot (reason : string) (since : Z)
| POpaque (json : string).

Record EventEnvelopeV1 := { env_sequence : Z; event_type : string; payload : Payload }.
Record SnapshotV1 := { snap_sequence : Z; snap_state : string }.

Inductive Emission := ESnapshot (s : SnapshotV1) | EEvent (e : EventEnvelopeV1).

Definition emission_sequence (e : Emission) : Z :=
  match e with ESnapshot s => s.(snap_sequence) | EEvent e => e.(env_sequence) end.

(** The shared broker: the [AtomicU64] sequence, the latest snapshot behind
    the RwLock, the envelopes sent on the broadcast channel, and (history
    only) every emission in the order its sequence was allocated. *)
Record Cache := {
  sequence : Z;
  latest : option SnapshotV1;
  channel : list EventEnvelopeV1;
  history : list Emission
}.

Definition new_cache : Cache :=
  {| sequence := 0; latest := None; channel := []; history := [] |}.

(** [next_sequence]: [fetch_add(1)] wraps modulo 2^64 and the returned old
    value plus one is the new value. *)
Definition next_sequence (c : Cache) : Cache * Z :=
  let v := (c.(sequence) + 1) mod u64_modulus in
  ({| sequence := v; latest := c.(latest); channel := c.(channel);
      history := c.(history) |}, v).

(** [publish_event] *)
Definition publish_event (c : Cache) (ty : string) (p : Payload)
  : Cache * EventEnvelopeV1 :=
  let (c1, n) := next_sequence c in
  let env := {| env_sequence := n; event_type := ty; payload := p |} in
  ({| sequence := c1.(sequence); latest := c1.(latest);
      channel := c1.(channel) ++ [env]; history := c1.(history) ++ [EEvent env] |},
   env).

(** First segment of [publish_snapshot]: allocate the snapshot's sequence. *)
Definition snapshot_alloc (c : Cache) (state : string) : Cache * SnapshotV1 :=
  let (c1, n) := next_sequence c in
  let snap := {| snap_sequence := n; snap_state := state |} in
  ({| sequence := c1.(sequence); latest := c1.(latest); channel := c1.(channel);
      history := c1.(history) ++ [ESnapshot snap] |}, snap).

(** Second segment, after [self.snapshot.write().await]: store the snapshot
    and publish [snapshot.updated] with payload [{sequence: snapshot.sequence}]. *)
Definition snapshot_finish (c : Cache) (snap : SnapshotV1) : Cache :=
  let c1 := {| sequence := c.(sequence); latest := Some snap; channel := c.(channel);
               history := c.(history) |} in
  fst (publish_event c1 "snapshot.updated" (PSequence snap.(snap_sequence))).

(** [publish_snapshot], run without interference. *)
Definition publish_snapshot (c : Cache) (state : string) : Cache * SnapshotV1 :=
  let (c1, snap) := snapshot_alloc c state in (snapshot_finish c1 snap, snap).

(** Concurrent callers of one broker (it is [Clone] over [Arc]s): each task is
    a pending [publish_snapshot] (before or after its allocation) or a
    pending [publish_event]. The fetch_add is the unit of interleaving. *)
Inductive Task :=
| TSnapshot (state : string)
| TSnapshotAllocated (snap : SnapshotV1)
| TEvent (ty : string) (p : Payload)
| TDone.

Definition step_task (c : Cache) (t : Task) : Cache * Task :=
  match t with
  | TSnapshot st => let (c1, snap) := snapshot_alloc c st in (c1, TSnapshotAllocated snap)
  | TSnapshotAllocated snap => (snapshot_finish c snap, TDone)
  | TEvent ty p => (fst (publish_event c ty p), TDone)
  | TDone => (c, TDone)
  end.

Fixpoint replace_nth {A} (l : list A) (i : nat) (x : A) : list A :=
  match l, i with
  | [], _ => []
  | _ :: r, O => x :: r
  | y :: r, S i' => y :: replace_nth r i' x
  end.

(** Run the tasks by a schedule of task indices. *)
Fixpoint run (sched : list nat) (c : Cache) (ts : list Task) : Cache * list Task :=
  match sched with
  | [] => (c, ts)
  | i :: rest =>
      let (c1, t1) := step_task c (nth i ts TDone) in
      run rest c1 (replace_nth ts i t1)
  end.

(** Every element is its predecessor plus one, starting after [c]. *)
Fixpoint dense_from (c : Z) (l : list Z) : Prop :=
  match l with
  | [] => True
  | x :: r => x = c + 1 /\ dense_from x r
  end.

End Broker.

(** ** Mobile-sync WebSocket server (mobile_sync/server.rs) *)
Module WsServer.
Import Broker.
Local Open Scope Z_scope.

Definition u64_max : Z := u64_modulus - 1.

(** [u64::saturating_add] *)
Definition saturating_add (a b : Z) : Z := Z.min (a + b) u64_max.

(** [requires_resnapshot] *)
Definition requires_resnapshot (since current_sequence : Z) : bool :=
  saturating_add since 1 <? current_sequence.

(** The frames [websocket_loop] sends before it starts forwarding broadcast
    envelopes. *)
Definition ws_initial_frames (since current_sequence : Z) : list EventEnvelopeV1 :=
  if requires_resnapshot since current_sequence
  then [{| env_sequence := current_sequence;
           event_type := "sync.resnapshot_required";
           payload := PResnapshot "sequence_gap" since |}]
  else [].

End WsServer.

(** ** Usage indexer: the resume/reset decision of [process_file]
    (usage_index/sync.rs) *)
Module UsageSync.
Local Open Scope Z_scope.

Record UsageEvent := {
  event_uid : string;
  ev_source_path : string;
  source_line : Z
}.

(** A [source_files] row. *)
Record SourceFileRow := {
  sf_source_path : string;
  size_bytes : Z;
  modified_unix_ms : Z;
  last_offset : Z;
  last_line : Z;
  parse_error_count : Z
}.

Record UsageDb := {
  usage_events : list UsageEvent;
  source_files : list SourceFileRow
}.

(** [load_source_file_row] *)
Definition load_source_file_row (db : UsageDb) (path : string) : option SourceFileRow :=
  find (fun r => String.eqb r.(sf_source_path) path) db.(source_files).

(** [DELETE FROM usage_events WHERE source_path = ?1] and
    [DELETE FROM source_files WHERE source_path = ?1] *)
Definition delete_source (db : UsageDb) (path : string) : UsageDb :=
  {| usage_events := filter (fun e => negb (String.eqb e.(ev_source_path) path))
                       db.(usage_events);
     source_files := filter (fun r => negb (String.eqb r.(sf_source_path) path))
                       db.(source_files) |}.

(** Where reading starts. *)
Record Cursor := { start_offset : Z; start_line : Z; base_parse_errors : Z }.

(** The beginning of [process_file], up to the seek: decide between resuming
    at the stored cursor and resetting a truncated or rewritten file. *)
Definition process_file_start (db : UsageDb) (source_path : string)
  (size_bytes modified_unix_ms : Z) : UsageDb * Cursor :=
  match load_source_file_row db source_path with
  | None => (db, {| start_offset := 0; start_line := 0; base_parse_errors := 0 |})
  | Some row =>
      let truncated := size_bytes <? row.(last_offset) in
      let rewritten_same_size :=
        (size_bytes =? row.(UsageSync.size_bytes))
        && negb (modified_unix_ms =? row.(UsageSync.modified_unix_ms)) in
      if truncated || rewritten_same_size then
        (delete_source db source_path,
         {| start_offset := 0; start_line := 0; base_parse_errors := 0 |})
      else
        (db, {| start_offset := row.(last_offset); start_line := row.(last_line);
                base_parse_errors := row.(parse_error_count) |})
  end.

End UsageSync.

(** ** Usage indexer: [query_session_stats] (usage_index/query.rs) *)
Module UsageQuery.
Local Open Scope Z_scope.

(** The [usage_events] columns the query reads. [cost] is an f64 column in
    the source; it is kept here as an integer amount, as only its sum is
    passed through. *)
Record EventRow := {
  q_project_path : string;
  q_session_id : string;
  q_event_date : string;
  q_timestamp : string;
  q_cost : Z;
  q_input_tokens : Z;
  q_output_tokens : Z;
  q_cache_creation_tokens : Z;
  q_cache_read_tokens : Z
}.

(** [ProjectUsage] (usage_index/mod.rs) *)
Record ProjectUsage := {
  project_path : string;
  project_name : string;
  total_cost : Z;
  total_tokens : Z;
  session_count : Z;
  last_used : string
}.

Definition MAX_LIMIT : Z := 500.

(** [WHERE 1=1 AND event_date >= ? AND event_date <= ?] *)
Definition date_filter (since_date until_date : option string) (r : EventRow) : bool :=
  match since_date with Some s => String.leb s r.(q_event_date) | None => true end
  && match until_date with Some u => String.leb r.(q_event_date) u | None => true end.

Definition key (r : EventRow) : string * string := (r.(q_project_path), r.(q_session_id)).

Definition key_eqb (a b : string * string) : bool :=
  String.eqb (fst a) (fst b) && String.eqb (snd a) (snd b).

Fixpoint dedup_keys (l : list (string * string)) : list (string * string) :=
  match l with
  | [] => []
  | k :: r => k :: filter (fun k' => negb (key_eqb k k')) (dedup_keys r)
  end.

(** [GROUP BY project_path, session_id]: one group per distinct key, holding
    the filtered rows with that key. *)
Definition group_by (rows : list EventRow) : list ((string * string) * list EventRow) :=
  map (fun k => (k, filter (fun r => key_eqb (key r) k) rows))
      (dedup_keys (map key rows)).

Definition sum (f : EventRow -> Z) (rows : list EventRow) : Z :=
  fold_right (fun r acc => f r + acc) 0 rows.

(** [COALESCE(MAX(timestamp), '')] *)
Definition max_timestamp (rows : list EventRow) : string :=
  fold_right (fun r acc => if String.ltb acc r.(q_timestamp) then r.(q_timestamp) else acc)
    EmptyString rows.

(** The SELECT list of one group, then the row mapping of [query_map]. *)
Definition group_row (g : (string * string) * list EventRow) : ProjectUsage :=
  let '((pp, sid), rows) := g in
  let input_tokens := Z.max (sum q_input_tokens rows) 0 in
  let output_tokens := Z.max (sum q_output_tokens rows) 0 in
  let cache_creation_tokens := Z.max (sum q_cache_creation_tokens rows) 0 in
  let cache_read_tokens := Z.max (sum q_cache_read_tokens rows) 0 in
  {| project_path := pp;
     project_name := sid;
     total_cost := sum q_cost rows;
     total_tokens := input_tokens + output_tokens + cache_creation_tokens
                     + cache_read_tokens;
     session_count := Z.max (Z.of_nat (List.length rows)) 0;
     last_used := max_timestamp rows |}.

(** [ORDER BY MAX(timestamp) ASC|DESC], as a stable insertion sort. *)
Fixpoint insert_by (le : ProjectUsage -> ProjectUsage -> bool) (x : ProjectUsage)
  (l : list ProjectUsage) : list ProjectUsage :=
  match l with
  | [] => [x]
  | y :: r => if le x y then x :: y :: r else y :: insert_by le x r
  end.

Definition sort_by (le : ProjectUsage -> ProjectUsage -> bool) (l : list ProjectUsage)
  : list ProjectUsage :=
  fold_right (insert_by le) [] l.

(** [query_session_stats] *)
Definition query_session_stats (rows : list EventRow)
  (since_date until_date order : option string) (limit offset : option Z)
  : list ProjectUsage :=
  let filtered := filter (date_filter since_date until_date) rows in
  let groups := map group_row (group_by filtered) in
  let asc := match order with Some o => String.eqb o "asc" | None => false end in
  let le := if asc then fun a b => String.leb a.(last_used) b.(last_used)
            else fun a b => String.leb b.(last_used) a.(last_used) in
  let capped_limit := Z.min (match limit with Some l => l | None => MAX_LIMIT end) MAX_LIMIT in
  let resolved_offset := match offset with Some o => o | None => 0 end in
  firstn (Z.to_nat capped_limit) (skipn (Z.to_nat resolved_offset) (sort_by le groups)).

End UsageQuery.

(** ** Stream normaliser for codex output: [transform_codex_line]
    (commands/codex_transform.rs) *)
Module CodexTransform.
Local Open Scope Z_scope.

(** [serde_json::Value]; numbers are the integers the transform reads. *)
#[warnings="-register-all"]
Inductive Value :=
| VNull
| VBool (b : bool)
| VNum (n : Z)
| VStr (s : string)
| VArr (l : list Value)
| VObj (fields : list (string * Value)).

(** [Value::get] with a string key. *)
Definition get (k : string) (v : Value) : option Value :=
  match v with
  | VObj fs => option_map snd (find (fun kv => String.eqb (fst kv) k) fs)
  | _ => None
  end.

Definition as_str (v : Value) : option string :=
  match v with VStr s => Some s | _ => None end.

Definition as_array (v : Value) : option (list Value) :=
  match v with VArr l => Some l | _ => None end.

Definition as_u64 (v : Value) : option Z :=
  match v with VNum n => if 0 <=? n then Some n else None | _ => None end.

Definition bind {A B} (o : option A) (f : A -> option B) : option B :=
  match o with Some a => f a | None => None end.

Definition unwrap_or {A} (o : option A) (d : A) : A :=
  match o with Some a => a | None => d end.

(** [get(k).and_then(as_str)] *)
Definition get_str (k : string) (v : Value) : option string := bind (get k v) as_str.

Definition newline : string := String (ascii_of_nat 10%nat) EmptyString.

Fixpoint filter_map {A B} (f : A -> option B) (l : list A) : list B :=
  match l with
  | [] => []
  | x :: r => match f x with Some y => y :: filter_map f r | None => filter_map f r end
  end.

(** [wrap_as_text]: the value serialised by [json!] *)
Definition wrap_as_text (text : string) : Value :=
  VObj [("type", VStr "assistant");
        ("message", VObj [("content", VArr [VObj [("type", VStr "text");
                                                   ("text", VStr text)]])])].

Definition result_envelope (input_tokens output_tokens : Z) : Value :=
  VObj [("type", VStr "result");
        ("usage", VObj [("input_tokens", VNum input_tokens);
                        ("output_tokens", VNum output_tokens)])].

(** [extract_text_from_item] *)
Definition extract_text_from_item (item : Value) : string :=
  let from_message :=
    match get "message" item with
    | Some message =>
        match get_str "text" message with
        | Some text => text
        | None => unwrap_or (get_str "content" message) EmptyString
        end
    | None => EmptyString
    end in
  let from_content :=
    match bind (get "content" item) as_array with
    | Some content =>
        let parts := filter_map (fun c =>
          let t := unwrap_or (get_str "type" c) EmptyString in
          if String.eqb t "text" || String.eqb t "output_text"
          then get_str "text" c else None) content in
        match parts with
        | [] => from_message
        | _ => Str.join newline parts
        end
    | None => from_message
    end in
  match get_str "text" item with
  | Some text => if Str.is_empty text then from_content else text
  | None => from_content
  end.

(** [transform_item_completed] *)
Definition transform_item_completed (event : Value) : option Value :=
  bind (get "item" event) (fun item =>
  let item_type := unwrap_or (get_str "type" item) EmptyString in
  if String.eqb item_type "agent_message" || String.eqb item_type "message" then
    let text := extract_text_from_item item in
    if Str.is_empty text then None else Some (wrap_as_text text)
  else if String.eqb item_type "reasoning" then
    let text := extract_text_from_item item in
    if Str.is_empty text then None else Some (wrap_as_text ("[thinking] " ++ text)%string)
  else if String.eqb item_type "command_execution" || String.eqb item_type "function_call" then
    let cmd := unwrap_or (bind (match get "command" item with
                                | Some v => Some v
                                | None => get "name" item
                                end) as_str) EmptyString in
    let output := unwrap_or (get_str "output" item) EmptyString in
    let text := if Str.is_empty output then ("$ " ++ cmd)%string
                else ("$ " ++ cmd ++ newline ++ output)%string in
    Some (wrap_as_text text)
  else
    let text := extract_text_from_item item in
    if Str.is_empty text then None else Some (wrap_as_text text)).

(** The [response.output[].content[].text] salvage loop. *)
Definition combine_response_output (output : list Value) : string :=
  fold_left (fun combined item =>
    match bind (get "content" item) as_array with
    | Some content =>
        fold_left (fun combined c =>
          match get_str "text" c with
          | Some text =>
              if Str.is_empty combined then text else (combined ++ newline ++ text)%string
          | None => combined
          end) content combined
    | None => combined
    end) output EmptyString.

(** [try_extract_text_from_value] *)
Definition try_extract_text_from_value (value : Value) : option string :=
  let from_response :=
    match get "response" value with
    | Some response =>
        match bind (get "output" response) as_array with
        | Some output =>
            let combined := combine_response_output output in
            if Str.is_empty combined then None else Some combined
        | None => None
        end
    | None => None
    end in
  let from_item :=
    match get "item" value with
    | Some item =>
        let text := extract_text_from_item item in
        if Str.is_empty text then from_response else Some text
    | None => from_response
    end in
  fold_right (fun key rest =>
    match get_str key value with
    | Some s => if Str.is_empty s then rest else Some s
    | None => rest
    end) from_item ["text"; "delta"; "content"; "message"; "output"; "data"].

Definition usage_tokens (usage : option Value) (k : string) : Z :=
  unwrap_or (bind (bind usage (get k)) as_u64) 0.

Section Transform.
(** [serde_json::from_str::<Value>] on the trimmed line. *)
Variable from_str : string -> option Value.

(** [transform_codex_line] *)
Definition transform_codex_line (line : string) : option Value :=
  let trimmed := Str.trim line in
  if Str.is_empty trimmed then None else
  match from_str trimmed with
  | None => Some (wrap_as_text trimmed)
  | Some event =>
    let event_type := unwrap_or (get_str "type" event) EmptyString in
    if String.eqb event_type "thread.started" || String.eqb event_type "turn.started"
    then None
    else if String.eqb event_type "item.completed" then transform_item_completed event
    else if String.eqb event_type "turn.completed" then
      let usage := get "usage" event in
      Some (result_envelope (usage_tokens usage "input_tokens")
                            (usage_tokens usage "output_tokens"))
    else if String.eqb event_type "response.output_text.delta" then
      let delta := unwrap_or (get_str "delta" event) EmptyString in
      if Str.is_empty delta then None else Some (wrap_as_text delta)
    else if String.eqb event_type "response.output_text.done" then
      let text := unwrap_or (get_str "text" event) EmptyString in
      if Str.is_empty text then None else Some (wrap_as_text text)
    else if String.eqb event_type "response.output_item.done" then
      match get "item" event with
      | Some item =>
          let from_text :=
            match get_str "text" item with
            | Some text => if Str.is_empty text then None else Some (wrap_as_text text)
            | None => None
            end in
          match bind (get "content" item) as_array with
          | Some content =>
              let texts := filter_map (fun c =>
                match get_str "type" c with
                | Some t => if String.eqb t "output_text" then get_str "text" c else None
                | None => None
                end) content in
              match texts with
              | [] => from_text
              | _ => Some (wrap_as_text (Str.join newline texts))
              end
          | None => from_text
          end
      | None => None
      end
    else if String.eqb event_type "response.completed" then
      let usage := bind (get "response" event) (get "usage") in
      let input_tokens := usage_tokens usage "input_tokens" in
      let output_tokens := usage_tokens usage "output_tokens" in
      if (0 <? input_tokens) || (0 <? output_tokens)
      then Some (result_envelope input_tokens output_tokens) else None
    else if String.eqb event_type "response.created"
         || String.eqb event_type "response.in_progress"
         || String.eqb event_type "response.output_item.added"
         || String.eqb event_type "response.content_part.added"
         || String.eqb event_type "response.content_part.done"
    then None
    else
      match try_extract_text_from_value event with
      | Some text => Some (wrap_as_text text)
      | None => None
      end
  end.
End Transform.

(** The two output shapes: an assistant message whose [message.content] is a
    one-element array holding a [text] item with a string [text], or a
    [result] with numeric [usage.input_tokens] and [usage.output_tokens]. *)
Definition assistant_shape (v : Value) : Prop :=
  get "type" v = Some (VStr "assistant")
  /\ exists c t, bind (get "message" v) (get "content") = Some (VArr [c])
       /\ get "type" c = Some (VStr "text") /\ get "text" c = Some (VStr t).

Definition result_shape (v : Value) : Prop :=
  get "type" v = Some (VStr "result")
  /\ exists a b, bind (get "usage" v) (get "input_tokens") = Some (VNum a)
       /\ bind (get "usage" v) (get "output_tokens") = Some (VNum b)
       /\ 0 <= a /\ 0 <= b.

End CodexTransform.

(** ** Sample inputs used by the examples and witnesses *)
Module Samples.
Import CodexTransform UsageQuery.
Local Open Scope Z_scope.

(** The JSON values of the lines of the spec's codex scenario. *)
Definition scenario_event (line : string) : option Value :=
  if String.eqb line "thread" then Some (VObj [("type", VStr "thread.started")])
  else if String.eqb line "reasoning" then
    Some (VObj [("type", VStr "item.completed");
                ("item", VObj [("type", VStr "reasoning"); ("text", VStr "ok")])])
  else if String.eqb line "message" then
    Some (VObj [("type", VStr "item.completed");
                ("item", VObj [("type", VStr "agent_message"); ("text", VStr "Hi.")])])
  else if String.eqb line "turn" then
    Some (VObj [("type", VStr "turn.completed");
                ("usage", VObj [("input_tokens", VNum 10); ("output_tokens", VNum 3)])])
  else None.

Definition sample_rows : list EventRow :=
  [{| q_project_path := "/p"; q_session_id := "s1"; q_event_date := "2026-01-02";
      q_timestamp := "t1"; q_cost := 1; q_input_tokens := 10; q_output_tokens := 1;
      q_cache_creation_tokens := 0; q_cache_read_tokens := 0 |};
   {| q_project_path := "/p"; q_session_id := "s1"; q_event_date := "2026-01-02";
      q_timestamp := "t2"; q_cost := 1; q_input_tokens := 5; q_output_tokens := 1;
      q_cache_creation_tokens := 0; q_cache_read_tokens := 0 |};
   {| q_project_path := "/p"; q_session_id := "s2"; q_event_date := "2026-01-03";
      q_timestamp := "t3"; q_cost := 2; q_input_tokens := 7; q_output_tokens := 0;
      q_cache_creation_tokens := 0; q_cache_read_tokens := 0 |}].

End Samples.

(** ** Decimal formatting of integers ([{}] and [{:?}] of i32, u8, u16) *)
Module Fmt.
Local Open Scope Z_scope.

Fixpoint uint_digits (u : Decimal.uint) : string :=
  match u with
  | Decimal.Nil => EmptyString
  | Decimal.D0 r => String "0"%char (uint_digits r)
  | Decimal.D1 r => String "1"%char (uint_digits r)
  | Decimal.D2 r => String "2"%char (uint_digits r)
  | Decimal.D3 r => String "3"%char (uint_digits r)
  | Decimal.D4 r => String "4"%char (uint_digits r)
  | Decimal.D5 r => String "5"%char (uint_digits r)
  | Decimal.D6 r => String "6"%char (uint_digits r)
  | Decimal.D7 r => String "7"%char (uint_digits r)
  | Decimal.D8 r => String "8"%char (uint_digits r)
  | Decimal.D9 r => String "9"%char (uint_digits r)
  end.

Definition z_to_string (z : Z) : string :=
  match Z.to_int z with
  | Decimal.Pos u => uint_digits u
  | Decimal.Neg u => String "-"%char (uint_digits u)
  end.

End Fmt.

(** ** Provider sessions of the web server (web_server.rs): completion
    status, exit mapping and session aliases *)
Module WebSession.
Import Str.
Local Open Scope Z_scope.

Inductive ProviderSessionCompletionStatus := Success | Error | Cancelled.

Definition as_str (s : ProviderSessionCompletionStatus) : string :=
  match s with Success => "success" | Error => "error" | Cancelled => "cancelled" end.

(** [completion_status_for_result] *)
Definition completion_status_for_result (r : result unit string)
  : ProviderSessionCompletionStatus :=
  match r with
  | Ok _ => Success
  | Err error =>
      let lowered := to_ascii_lowercase error in
      if contains lowered "cancelled" || contains lowered "canceled"
         || contains lowered "interrupted"
      then Cancelled else Error
  end.

(** [{:?}] of an [Option<i32>] *)
Definition debug_option_i32 (c : option Z) : string :=
  match c with
  | Some v => ("Some(" ++ Fmt.z_to_string v ++ ")")%string
  | None => "None"
  end.

(** [map_exit_status_to_result] *)
Definition map_exit_status_to_result (exit_status : Supervisor.ExitStatus)
  : result unit string :=
  if Supervisor.success exit_status then Ok tt
  else
    let code := Supervisor.code exit_status in
    if match code with Some c => (c =? 130) || (c =? 143) | None => false end
    then Err ("Provider session cancelled (exit code: " ++ debug_option_i32 code ++ ")")%string
    else Err ("Provider session execution failed with exit code: "
              ++ debug_option_i32 code)%string.

(** [ProviderProcessOutcome]: [Exited(status)] or [Cancelled(status)]. *)
Inductive ProviderProcessOutcome :=
| OutcomeExited (s : Supervisor.ExitStatus)
| OutcomeCancelled (s : Supervisor.ExitStatus).

(** The end of [execute_provider_session_command] (and of the continue and
    resume variants): [completion?], then the match on the outcome. The
    argument is the result of [wait_for_provider_process_completion]. *)
Definition session_command_result (completion : result ProviderProcessOutcome string)
  : result unit string :=
  match completion with
  | Err e => Err e
  | Ok (OutcomeCancelled _) => Err "Provider session cancelled"
  | Ok (OutcomeExited st) => map_exit_status_to_result st
  end.

(** The parts of [AppState] the alias functions use: the keys of
    [active_sessions] and of [active_cancellations], and the
    [session_aliases] map (provider session id to websocket session id). *)
Record AppState := {
  active_sessions : list string;
  active_cancellations : list string;
  session_aliases : list (string * string)
}.

(** [HashMap::get] *)
Definition alias_get (m : list (string * string)) (k : string) : option string :=
  option_map snd (find (fun kv => String.eqb (fst kv) k) m).

(** [HashMap::insert]: replaces the value of an existing key. *)
Definition alias_insert (k v : string) (m : list (string * string))
  : list (string * string) :=
  (k, v) :: filter (fun kv => negb (String.eqb (fst kv) k)) m.

(** [register_provider_session_alias] *)
Definition register_provider_session_alias (st : AppState)
  (provider_session_id websocket_session_id : string) : AppState :=
  let trimmed := trim provider_session_id in
  if is_empty trimmed then st
  else {| active_sessions := st.(active_sessions);
          active_cancellations := st.(active_cancellations);
          session_aliases := alias_insert trimmed websocket_session_id
                               st.(session_aliases) |}.

(** [resolve_websocket_session_id] *)
Definition resolve_websocket_session_id (st : AppState) (requested_session_id : string)
  : option string :=
  if is_empty (trim requested_session_id) then None
  else if existsb (String.eqb requested_session_id) st.(active_sessions)
  then Some requested_session_id
  else alias_get st.(session_aliases) requested_session_id.

(** [resolve_provider_session_id_for_websocket]: the first alias, in the
    map's iteration order, that points at the websocket session. *)
Definition resolve_provider_session_id_for_websocket (st : AppState)
  (websocket_session_id : string) : option string :=
  option_map fst (find (fun kv => String.eqb (snd kv) websocket_session_id)
                    st.(session_aliases)).

(** [remove_websocket_session_state]: the session leaves [active_sessions]
    and [active_cancellations], and [retain] drops every alias that points
    at it. *)
Definition remove_websocket_session_state (st : AppState) (websocket_session_id : string)
  : AppState :=
  {| active_sessions :=
       filter (fun k => negb (String.eqb k websocket_session_id)) st.(active_sessions);
     active_cancellations :=
       filter (fun k => negb (String.eqb k websocket_session_id)) st.(active_cancellations);
     session_aliases :=
       filter (fun kv => negb (String.eqb (snd kv) websocket_session_id))
         st.(session_aliases) |}.

Section StreamLine.
(** [serde_json::from_str::<Value>] *)
Variable from_str : string -> option CodexTransform.Value.

(** [extract_provider_session_id_from_stream_line] *)
Definition extract_provider_session_id_from_stream_line (line : string) : option string :=
  CodexTransform.bind (from_str line) (fun parsed =>
  CodexTransform.bind (CodexTransform.get_str "type" parsed) (fun message_type =>
  if negb (String.eqb message_type "system") then None else
  CodexTransform.bind (CodexTransform.get_str "subtype" parsed) (fun subtype =>
  if negb (String.eqb subtype "init") then None else
  match CodexTransform.get_str "session_id" parsed with
  | Some value => let t := trim value in if is_empty t then None else Some t
  | None => None
  end))).

(** The alias bookkeeping of one stdout line in
    [spawn_provider_process_output_tasks] (the line is then sent to the
    websocket inside an [output] message). *)
Definition on_stdout_line (st : AppState) (websocket_session_id line : string) : AppState :=
  match extract_provider_session_id_from_stream_line line with
  | Some provider_session_id =>
      register_provider_session_alias st provider_session_id websocket_session_id
  | None => st
  end.
End StreamLine.

End WebSession.

(** ** Mobile-sync authentication and pairing (mobile_sync/auth.rs,
    mobile_sync/server.rs, [create_device_token] of mobile_sync/mod.rs) *)
Module MobileAuth.
Import Str.
Local Open Scope Z_scope.

Definition PROTOCOL_VERSION : Z := 1.
Definition VERSION_HEADER : string := "x-codeinterfacex-sync-version".

(** A [HeaderMap]: (lower-case name, value) entries in insertion order;
    [get] returns the first value stored under the name. Values are byte
    strings (one [ascii] per byte). *)
Definition HeaderMap := list (string * string).

Definition header_get (headers : HeaderMap) (name : string) : option string :=
  option_map snd (find (fun kv => String.eqb (fst kv) name) headers).

(** [HeaderValue::to_str] succeeds when every byte is visible ASCII or a tab. *)
Definition is_visible_ascii (a : ascii) : bool :=
  let n := nat_of_ascii a in (((32 <=? n) && (n <? 127)) || (n =? 9))%nat.

Definition to_str (v : string) : option string :=
  if forallb is_visible_ascii (list_ascii_of_string v) then Some v else None.

Fixpoint strip_prefix_l (p s : list ascii) : option (list ascii) :=
  match p, s with
  | [], _ => Some s
  | _ :: _, [] => None
  | a :: p', b :: s' => if Ascii.eqb a b then strip_prefix_l p' s' else None
  end.

(** [str::strip_prefix] *)
Definition strip_prefix (prefix s : string) : option string :=
  option_map string_of_list_ascii
    (strip_prefix_l (list_ascii_of_string prefix) (list_ascii_of_string s)).

Definition digit_value (a : ascii) : option Z :=
  let n := nat_of_ascii a in
  if ((48 <=? n) && (n <=? 57))%nat then Some (Z.of_nat (n - 48)) else None.

(** The digit loop of [u8::from_str_radix(_, 10)] with its overflow checks. *)
Fixpoint parse_digits (acc : Z) (l : list ascii) : option Z :=
  match l with
  | [] => Some acc
  | a :: r =>
      match digit_value a with
      | None => None
      | Some d => let v := acc * 10 + d in if v <=? 255 then parse_digits v r else None
      end
  end.

(** [str::parse::<u8>]: empty input, a lone sign, and a [-] sign are errors;
    a leading [+] is skipped. *)
Definition parse_u8 (s : string) : option Z :=
  match list_ascii_of_string s with
  | [] => None
  | [a] => if Ascii.eqb a "+"%char || Ascii.eqb a "-"%char then None
           else parse_digits 0 [a]
  | a :: r => if Ascii.eqb a "+"%char then parse_digits 0 r else parse_digits 0 (a :: r)
  end.

(** [verify_protocol_version] *)
Definition verify_protocol_version (headers : HeaderMap) : result unit string :=
  match header_get headers VERSION_HEADER with
  | None => Err ("Missing " ++ VERSION_HEADER ++ " header")%string
  | Some raw_header =>
      match to_str raw_header with
      | None => Err ("Invalid " ++ VERSION_HEADER ++ " header")%string
      | Some text =>
          match parse_u8 text with
          | None => Err ("Invalid " ++ VERSION_HEADER ++ " header")%string
          | Some parsed =>
              if negb (parsed =? PROTOCOL_VERSION)
              then Err ("Unsupported protocol version " ++ Fmt.z_to_string parsed
                        ++ " (expected " ++ Fmt.z_to_string PROTOCOL_VERSION ++ ")")%string
              else Ok tt
          end
      end
  end.

(** [extract_bearer_token] *)
Definition extract_bearer_token (headers : HeaderMap) : option string :=
  CodexTransform.bind (header_get headers "authorization") (fun raw =>
  CodexTransform.bind (to_str raw) (fun value =>
  CodexTransform.bind (strip_prefix "Bearer " value) (fun rest =>
  let token := trim rest in
  if is_empty token then None else Some token))).

(** HTTP status codes used by the server. *)
Definition BAD_REQUEST : Z := 400.
Definition UNAUTHORIZED : Z := 401.
Definition INTERNAL_SERVER_ERROR : Z := 500.
Definition SERVICE_UNAVAILABLE : Z := 503.

(** [api_error]: the status and the JSON body. *)
Definition ApiError := (Z * CodexTransform.Value)%type.

Definition api_error (status : Z) (message : string) : ApiError :=
  (status, CodexTransform.VObj [("success", CodexTransform.VBool false);
                                ("error", CodexTransform.VStr message)]).

(** [require_enabled]: [enabled] is [state.service.cache.is_enabled()]. *)
Definition require_enabled (enabled : bool) : result unit ApiError :=
  if enabled then Ok tt else Err (api_error SERVICE_UNAVAILABLE "Mobile sync is disabled").

(** [verify_version] *)
Definition verify_version (headers : HeaderMap) : result unit ApiError :=
  match verify_protocol_version headers with
  | Ok u => Ok u
  | Err error => Err (api_error BAD_REQUEST error)
  end.

Record AuthenticatedDevice := {
  device_id : string;
  device_name : string
}.

(** [authenticate_request_with]: the callback [authenticate_fn] is an
    [FnMut], so it threads a state of its own. *)
Definition authenticate_request_with {S : Type} (s : S) (headers : HeaderMap)
  (authenticate_fn : S -> string -> S * result AuthenticatedDevice string)
  : S * result AuthenticatedDevice ApiError :=
  match verify_version headers with
  | Err e => (s, Err e)
  | Ok _ =>
      match extract_bearer_token headers with
      | None => (s, Err (api_error UNAUTHORIZED "Missing bearer token"))
      | Some token =>
          let (s', r) := authenticate_fn s token in
          (s', match r with
               | Ok d => Ok d
               | Err error => Err (api_error UNAUTHORIZED error)
               end)
      end
  end.

Inductive WsAuthTokenSource := Header | Query.

Record WsAuthTokenSelection := {
  token : string;
  source : WsAuthTokenSource
}.

Record WsQuery := {
  since : option Z;
  query_token : option string
}.

(** [select_ws_auth_token] *)
Definition select_ws_auth_token (headers : HeaderMap) (query : WsQuery)
  : result WsAuthTokenSelection ApiError :=
  match extract_bearer_token headers with
  | Some tok =>
      match verify_version headers with
      | Err e => Err e
      | Ok _ => Ok {| token := tok; source := Header |}
      end
  | None =>
      match option_map trim query.(query_token) with
      | Some query_tok =>
          if negb (is_empty query_tok)
          then Ok {| token := query_tok; source := Query |}
          else Err (api_error UNAUTHORIZED "Missing websocket auth token")
      | None => Err (api_error UNAUTHORIZED "Missing websocket auth token")
      end
  end.

(** [authenticate_ws_request_with] *)
Definition authenticate_ws_request_with {S : Type} (s : S) (headers : HeaderMap)
  (query : WsQuery)
  (authenticate_fn : S -> string -> S * result AuthenticatedDevice string)
  : S * result AuthenticatedDevice ApiError :=
  match select_ws_auth_token headers query with
  | Err e => (s, Err e)
  | Ok selection =>
      let (s', r) := authenticate_fn s selection.(token) in
      (s', match r with
           | Ok d => Ok d
           | Err error => Err (api_error UNAUTHORIZED error)
           end)
  end.

(** The [mobile_devices] and [mobile_pairing_codes] tables (rows in table
    order). [id] and [code] are primary keys, [token_hash] is unique.
    Timestamps are opaque strings written by SQLite. *)
Record DeviceRow := {
  d_id : string;
  d_device_name : string;
  d_token_hash : string;
  d_revoked : Z;
  d_last_seen_at : option string
}.

Record PairingRow := {
  p_code : string;
  p_expires_at : string;
  p_claimed : Z
}.

Record MobileDb := {
  devices : list DeviceRow;
  pairing_codes : list PairingRow
}.

Section Db.
(** [hash_token] (SHA-256, lower-case hex). *)
Variable hash_token : string -> string.
(** [DateTime::parse_from_rfc3339], as an instant, or the error's text. *)
Variable parse_from_rfc3339 : string -> result Z string.
(** The text of SQLite's error for a violated UNIQUE or PRIMARY KEY constraint. *)
Variable unique_violation : string.

(** [parse_expiration] *)
Definition parse_expiration (expiration_raw : string) : result Z string :=
  match parse_from_rfc3339 expiration_raw with
  | Ok t => Ok t
  | Err error => Err ("Invalid expiration timestamp: " ++ error)%string
  end.

Definition set_last_seen (now : string) (id : string) (d : DeviceRow) : DeviceRow :=
  if String.eqb d.(d_id) id
  then {| d_id := d.(d_id); d_device_name := d.(d_device_name);
          d_token_hash := d.(d_token_hash); d_revoked := d.(d_revoked);
          d_last_seen_at := Some now |}
  else d.

(** [authenticate_token]: [now] is SQLite's [CURRENT_TIMESTAMP]. The lock
    and the statements are assumed to succeed. *)
Definition authenticate_token (db : MobileDb) (now : string) (tok : string)
  : MobileDb * result AuthenticatedDevice string :=
  let token_hash := hash_token tok in
  match find (fun d => String.eqb d.(d_token_hash) token_hash) db.(devices) with
  | None => (db, Err "Authentication failed")
  | Some row =>
      if negb (row.(d_revoked) =? 0) then (db, Err "Device has been revoked")
      else ({| devices := map (set_last_seen now row.(d_id)) db.(devices);
               pairing_codes := db.(pairing_codes) |},
            Ok {| device_id := row.(d_id); device_name := row.(d_device_name) |})
  end.

(** [UPDATE mobile_devices SET revoked = 1 WHERE id = ?1] (of
    [device_revoke_handler] and [mobile_sync_revoke_device]). *)
Definition revoke_device (db : MobileDb) (id : string) : MobileDb :=
  {| devices := map (fun d => if String.eqb d.(d_id) id
                             then {| d_id := d.(d_id); d_device_name := d.(d_device_name);
                                     d_token_hash := d.(d_token_hash); d_revoked := 1;
                                     d_last_seen_at := d.(d_last_seen_at) |}
                             else d) db.(devices);
     pairing_codes := db.(pairing_codes) |}.

(** [create_device_token]: [new_device_id] and [raw_token] are the fresh
    UUID-based values it generates; the INSERT fails on a duplicate id or
    token hash. *)
Definition create_device_token (db : MobileDb) (dev_name new_device_id raw_token : string)
  : MobileDb * result (string * string) string :=
  let token_hash := hash_token raw_token in
  if existsb (fun d => String.eqb d.(d_id) new_device_id
                       || String.eqb d.(d_token_hash) token_hash) db.(devices)
  then (db, Err ("Failed to insert mobile device: " ++ unique_violation)%string)
  else ({| devices := db.(devices) ++
             [{| d_id := new_device_id; d_device_name := dev_name;
                 d_token_hash := token_hash; d_revoked := 0; d_last_seen_at := None |}];
           pairing_codes := db.(pairing_codes) |},
        Ok (new_device_id, raw_token)).

Record PairClaimResponse := {
  version : Z;
  resp_device_id : string;
  resp_token : string;
  base_url : string;
  ws_url : string
}.

Definition claim_code (code : string) (p : PairingRow) : PairingRow :=
  if String.eqb p.(p_code) code
  then {| p_code := p.(p_code); p_expires_at := p.(p_expires_at); p_claimed := 1 |}
  else p.

(** [pair_claim_handler]: [now] is [Utc::now()] as an instant, [host] and
    [port] the service's public host and port, [new_device_id] and
    [raw_token] the values [create_device_token] generates. *)
Definition pair_claim_handler (db : MobileDb) (headers : HeaderMap) (enabled : bool)
  (now : Z) (host : string) (port : Z)
  (pair_code dev_name new_device_id raw_token : string)
  : MobileDb * result PairClaimResponse ApiError :=
  match verify_version headers with
  | Err e => (db, Err e)
  | Ok _ =>
  match require_enabled enabled with
  | Err e => (db, Err e)
  | Ok _ =>
  match find (fun p => String.eqb p.(p_code) pair_code) db.(pairing_codes) with
  | None => (db, Err (api_error UNAUTHORIZED "Invalid pairing code"))
  | Some row =>
  if negb (row.(p_claimed) =? 0)
  then (db, Err (api_error UNAUTHORIZED "Pairing code already used"))
  else
  match parse_expiration row.(p_expires_at) with
  | Err error => (db, Err (api_error BAD_REQUEST error))
  | Ok expires_at =>
  if expires_at <=? now
  then (db, Err (api_error UNAUTHORIZED "Pairing code expired"))
  else
  let db1 := {| devices := db.(devices);
                pairing_codes := map (claim_code pair_code) db.(pairing_codes) |} in
  match create_device_token db1 dev_name new_device_id raw_token with
  | (db2, Err error) => (db2, Err (api_error INTERNAL_SERVER_ERROR error))
  | (db2, Ok (did, tok)) =>
      let base := ("http://" ++ host ++ ":" ++ Fmt.z_to_string port)%string in
      (db2, Ok {| version := PROTOCOL_VERSION; resp_device_id := did; resp_token := tok;
                  base_url := (base ++ "/mobile/v1")%string;
                  ws_url := ("ws://" ++ host ++ ":" ++ Fmt.z_to_string port
                             ++ "/mobile/v1/ws")%string |})
  end
  end
  end
  end
  end.

(** [device_revoke_handler]: [now] is SQLite's [CURRENT_TIMESTAMP]. *)
Definition device_revoke_handler (db : MobileDb) (headers : HeaderMap) (enabled : bool)
  (now : string) (target_device_id : string) : MobileDb * result bool ApiError :=
  match require_enabled enabled with
  | Err e => (db, Err e)
  | Ok _ =>
      match authenticate_request_with db headers
              (fun db tok => authenticate_token db now tok) with
      | (db1, Err e) => (db1, Err e)
      | (db1, Ok _) => (revoke_device db1 target_device_id, Ok true)
      end
  end.
End Db.

End MobileAuth.

(** ** Substring search helpers: [mism p l] holds when [p] and [l] differ
    at a position both have; [sfx_mism l p] when that holds for every
    non-empty suffix of [l]. *)
Module StrSearch.

Fixpoint mism (p l : list ascii) : bool :=
  match p, l with
  | a :: p', b :: l' => negb (Ascii.eqb a b) || mism p' l'
  | _, _ => false
  end.

Fixpoint sfx_mism (l p : list ascii) : bool :=
  match l with
  | [] => true
  | _ :: l' => mism p l && sfx_mism l' p
  end.

(** The characters of a formatted integer: a digit or a minus sign. *)
Definition numeric_char (a : ascii) : bool :=
  existsb (Ascii.eqb a) (list_ascii_of_string "-0123456789").

End StrSearch.

(** ** Usage indexer: paths, [parse_usage_event], the line loop of
    [process_file] and [remove_deleted_files] (usage_index/sync.rs) *)
Module UsageIndex.
Import Str UsageSync.
Local Open Scope Z_scope.

(** *** Unix paths ([std::path::Path]) *)

(** [std::path::Component] (Unix: no prefixes). *)
Inductive Component := RootDir | CurDir | ParentDir | Normal (s : string).

(** [Component::as_os_str] *)
Definition as_os_str (c : Component) : string :=
  match c with
  | RootDir => "/"
  | CurDir => "."
  | ParentDir => ".."
  | Normal s => s
  end.

Definition slash : ascii := "/"%char.

(** The bytes of a path split at every [/] (empty pieces included). *)
Fixpoint split_slash (l : list ascii) : list (list ascii) :=
  match l with
  | [] => [[]]
  | a :: r =>
      if Ascii.eqb a slash then [] :: split_slash r
      else match split_slash r with
           | [] => [[a]]
           | x :: xs => (a :: x) :: xs
           end
  end.

(** A piece between separators: empty pieces and [.] are skipped. *)
Definition piece_component (p : list ascii) : option Component :=
  match p with
  | [] => None
  | ["."%char] => None
  | ["."%char; "."%char] => Some ParentDir
  | _ => Some (Normal (string_of_list_ascii p))
  end.

(** [Path::components]: a leading [/] is [RootDir]; a leading [.] piece of
    a relative path is [CurDir]; repeated separators, inner [.] pieces and a
    trailing separator are dropped. *)
Definition components (path : string) : list Component :=
  match split_slash (list_ascii_of_string path) with
  | [] :: rest =>
      match list_ascii_of_string path with
      | [] => []
      | _ => RootDir :: CodexTransform.filter_map piece_component rest
      end
  | ["."%char] :: rest => CurDir :: CodexTransform.filter_map piece_component rest
  | pieces => CodexTransform.filter_map piece_component pieces
  end.

(** [Path::file_name]: the last component when it is a normal one. *)
Definition file_name (path : string) : option string :=
  match rev (components path) with
  | Normal s :: _ => Some s
  | _ => None
  end.

(** [path.parent().and_then(|parent| parent.file_name())]: [parent] drops a
    last normal, [.] or [..] component. *)
Definition parent_file_name (path : string) : option string :=
  match rev (components path) with
  | (Normal _ | CurDir | ParentDir) :: Normal s :: _ => Some s
  | _ => None
  end.

(** [infer_project_hint]: the component after the first [projects]
    component; else the parent directory's name; else [unknown]. *)
Fixpoint component_after_projects (cs : list Component) : option (option string) :=
  match cs with
  | [] => None
  | c :: rest =>
      if String.eqb (as_os_str c) "projects"
      then Some (match rest with n :: _ => Some (as_os_str n) | [] => None end)
      else component_after_projects rest
  end.

Definition infer_project_hint (path : string) : string :=
  match component_after_projects (components path) with
  | Some (Some project_component) => project_component
  | _ => CodexTransform.unwrap_or (parent_file_name path) "unknown"
  end.

(** [infer_project_name] *)
Definition infer_project_name (project_path : string) : string :=
  match file_name project_path with
  | Some name => if negb (is_empty name) then name else project_path
  | None => project_path
  end.

(** The split of [rsplit_file_at_dot]: the bytes before and after the last
    dot, if any. *)
Fixpoint rsplit_dot (l : list ascii) : option (list ascii * list ascii) :=
  match l with
  | [] => None
  | a :: r =>
      match rsplit_dot r with
      | Some (before, after) => Some (a :: before, after)
      | None => if Ascii.eqb a "."%char then Some ([], r) else None
      end
  end.

(** [Path::file_stem] *)
Definition file_stem (path : string) : option string :=
  match file_name path with
  | None => None
  | Some name =>
      if String.eqb name ".." then Some name else
      match rsplit_dot (list_ascii_of_string name) with
      | None => Some name
      | Some ([], _) => Some name
      | Some (before, _) => Some (string_of_list_ascii before)
      end
  end.

(** The fallback session id of [process_file]. *)
Definition fallback_session_id (path : string) : string :=
  match file_stem path with
  | Some value => if negb (is_empty value) then value else "unknown"
  | None => "unknown"
  end.

(** *** [parse_usage_event] *)

Record UsageData := {
  input_tokens : option Z;
  output_tokens : option Z;
  cache_creation_input_tokens : option Z;
  cache_read_input_tokens : option Z
}.

Record MessageData := {
  msg_id : option string;
  msg_model : option string;
  usage : option UsageData
}.

Section Parse.
(** [f64] *)
Variable Cost : Type.

Record JsonlEntry := {
  timestamp : string;
  message : option MessageData;
  entry_session_id : option string;
  request_id : option string;
  cost_usd : option Cost
}.

Record ParsedUsageEvent := {
  pe_event_uid : string;
  pe_source_path : string;
  pe_source_line : Z;
  pe_timestamp : string;
  pe_event_date : string;
  pe_model : string;
  pe_input_tokens : Z;
  pe_output_tokens : Z;
  pe_cache_creation_tokens : Z;
  pe_cache_read_tokens : Z;
  pe_cost : Cost;
  pe_session_id : string;
  pe_project_path : string;
  pe_project_name : string
}.

(** [serde_json::from_str::<Value>] and the derived [JsonlEntry]
    deserialisation, with their error texts. *)
Variable from_str : string -> result CodexTransform.Value string.
Variable from_value : CodexTransform.Value -> result JsonlEntry string.
(** [calculate_cost]: the per-model f64 price formula. *)
Variable calculate_cost : string -> UsageData -> Cost.
(** [DateTime::parse_from_rfc3339] followed by the local date formatted as
    [%Y-%m-%d]. *)
Variable rfc3339_local_date : string -> option string.

(** [parse_event_date]; [get(0..10)] on an ASCII timestamp. *)
Definition parse_event_date (ts : string) : option string :=
  match rfc3339_local_date ts with
  | Some d => Some d
  | None => if (10 <=? String.length ts)%nat then Some (substring 0 10 ts) else None
  end.

(** [u64 as i64] *)
Definition i64_of_u64 (v : Z) : Z := if v <? 2 ^ 63 then v else v - 2 ^ 64.

(** [parse_usage_event]: the result and the new value of
    [discovered_project_path]. *)
Definition parse_usage_event (line source_path : string) (source_line : Z)
  (fallback_project_hint : string) (discovered_project_path : option string)
  (fallback_session_id : string)
  : result (option ParsedUsageEvent) string * option string :=
  match from_str line with
  | Err e =>
      (Err ("Invalid JSON at " ++ source_path ++ ":" ++ Fmt.z_to_string source_line
            ++ " (" ++ e ++ ")")%string, discovered_project_path)
  | Ok json_value =>
  let discovered :=
    match discovered_project_path with
    | None => match CodexTransform.get_str "cwd" json_value with
              | Some cwd => Some cwd
              | None => None
              end
    | Some d => Some d
    end in
  match from_value json_value with
  | Err e =>
      (Err ("Invalid usage envelope at " ++ source_path ++ ":"
            ++ Fmt.z_to_string source_line ++ " (" ++ e ++ ")")%string, discovered)
  | Ok entry =>
  match entry.(message) with
  | None => (Ok None, discovered)
  | Some msg =>
  match msg.(usage) with
  | None => (Ok None, discovered)
  | Some u =>
  let it := CodexTransform.unwrap_or u.(input_tokens) 0 in
  let ot := CodexTransform.unwrap_or u.(output_tokens) 0 in
  let cct := CodexTransform.unwrap_or u.(cache_creation_input_tokens) 0 in
  let crt := CodexTransform.unwrap_or u.(cache_read_input_tokens) 0 in
  if (it =? 0) && (ot =? 0) && (cct =? 0) && (crt =? 0) then (Ok None, discovered) else
  match parse_event_date entry.(timestamp) with
  | None => (Ok None, discovered)
  | Some event_date =>
  let model := CodexTransform.unwrap_or msg.(msg_model) "unknown" in
  let cost := match entry.(cost_usd) with
              | Some c => c
              | None => calculate_cost model u
              end in
  let session_id := match entry.(entry_session_id) with
                    | Some v => if negb (is_empty v) then v else fallback_session_id
                    | None => fallback_session_id
                    end in
  let project_path := CodexTransform.unwrap_or discovered fallback_project_hint in
  let event_uid :=
    match msg.(msg_id), entry.(request_id) with
    | Some message_id, Some rid => ("mr:" ++ message_id ++ ":" ++ rid)%string
    | _, _ => ("ln:" ++ source_path ++ ":" ++ Fmt.z_to_string source_line)%string
    end in
  (Ok (Some {| pe_event_uid := event_uid; pe_source_path := source_path;
               pe_source_line := source_line; pe_timestamp := entry.(timestamp);
               pe_event_date := event_date; pe_model := model;
               pe_input_tokens := i64_of_u64 it; pe_output_tokens := i64_of_u64 ot;
               pe_cache_creation_tokens := i64_of_u64 cct; pe_cache_read_tokens := i64_of_u64 crt;
               pe_cost := cost; pe_session_id := session_id;
               pe_project_path := project_path;
               pe_project_name := infer_project_name project_path |}), discovered)
  end
  end
  end
  end
  end.

(** *** The [usage_events] and [source_files] writes. Rows of
    [usage_events] keep the columns the indexer reads back
    ([event_uid], [source_path], [source_line]). SQL statements are assumed
    to succeed. *)

(** [insert_usage_event]: [INSERT OR IGNORE] keyed by [event_uid]. *)
Definition insert_usage_event (db : UsageDb) (ev : ParsedUsageEvent) : UsageDb * bool :=
  if existsb (fun e => String.eqb e.(event_uid) ev.(pe_event_uid)) db.(usage_events)
  then (db, false)
  else ({| usage_events := db.(usage_events) ++
             [{| event_uid := ev.(pe_event_uid); ev_source_path := ev.(pe_source_path);
                 source_line := ev.(pe_source_line) |}];
           source_files := db.(source_files) |}, true).

(** [upsert_source_file_row]: insert, or update the row of the path. *)
Definition upsert_source_file_row (db : UsageDb) (source_path : string)
  (size mtime offset line errors : Z) : UsageDb :=
  let row := {| sf_source_path := source_path; size_bytes := size;
                modified_unix_ms := mtime; last_offset := offset; last_line := line;
                parse_error_count := errors |} in
  {| usage_events := db.(usage_events);
     source_files :=
       if existsb (fun r => String.eqb r.(sf_source_path) source_path) db.(source_files)
       then map (fun r => if String.eqb r.(sf_source_path) source_path then row else r)
                db.(source_files)
       else db.(source_files) ++ [row] |}.

(** [remove_deleted_files]: every tracked path missing from
    [existing_paths] loses its events and its row. *)
Definition remove_deleted_files (db : UsageDb) (existing_paths : list string) : UsageDb :=
  fold_left (fun d p => if existsb (String.eqb p) existing_paths then d
                        else delete_source d p)
    (map sf_source_path db.(source_files)) db.

(** *** The line loop of [process_file] *)

Definition COMMIT_EVERY_LINES : Z := 5000.

Definition newline_char : ascii := ascii_of_nat 10.

(** The successive chunks [BufRead::read_line] returns: each line with its
    newline, the last one possibly without. *)
Fixpoint read_lines (l : list ascii) : list (list ascii) :=
  match l with
  | [] => []
  | a :: r =>
      if Ascii.eqb a newline_char then [a] :: read_lines r
      else match read_lines r with
           | [] => [[a]]
           | x :: xs => (a :: x) :: xs
           end
  end.

(** [read_line] fails on a chunk that is not valid UTF-8, with the text
    [read_error]. *)
Variable valid_utf8 : list ascii -> bool.
Variable read_error : string.
(** The error of [file.seek(SeekFrom::Start(start_offset as u64))] when the
    position, read back as the signed offset of [lseek], is negative. *)
Variable seek_error : string.

Record FileProcessResult := {
  lines_processed : Z;
  entries_indexed : Z;
  entries_ignored : Z;
  parse_errors : Z
}.

(** The loop's variables: the committed database, the open transaction's
    view, the cursor, the batch counter, the discovered project path and
    the counters. *)
Record LoopState := {
  committed : UsageDb;
  txn : UsageDb;
  current_offset : Z;
  current_line : Z;
  batch_lines : Z;
  discovered : option string;
  counts : FileProcessResult
}.

Section Loop.
Variables (source_path fallback_project_hint fallback_sid : string)
          (size mtime base_errors : Z).
(** [state.is_cancel_requested()] at the loop's [i]-th check. *)
Variable cancel_requested : nat -> bool.

Definition bump (c : FileProcessResult) (di dg de : Z) : FileProcessResult :=
  {| lines_processed := c.(lines_processed) + 1;
     entries_indexed := c.(entries_indexed) + di;
     entries_ignored := c.(entries_ignored) + dg;
     parse_errors := c.(parse_errors) + de |}.

(** One line that was read: cursor and counters advanced, the line parsed
    and its event inserted, and the batch committed every
    [COMMIT_EVERY_LINES] lines. *)
Definition step_line (ln : list ascii) (st : LoopState) : LoopState :=
  let offset := st.(current_offset) + Z.of_nat (length ln) in
  let lineno := st.(current_line) + 1 in
  let batch := st.(batch_lines) + 1 in
  let line := string_of_list_ascii ln in
  if is_empty (trim line) then
    {| committed := st.(committed); txn := st.(txn); current_offset := offset;
       current_line := lineno; batch_lines := batch; discovered := st.(discovered);
       counts := bump st.(counts) 0 0 0 |}
  else
  let (r, disc) := parse_usage_event line source_path lineno fallback_project_hint
                     st.(discovered) fallback_sid in
  let '(tx1, c1) :=
    match r with
    | Ok (Some ev) =>
        let (tx1, inserted) := insert_usage_event st.(txn) ev in
        (tx1, if inserted then bump st.(counts) 1 0 0 else bump st.(counts) 0 1 0)
    | Ok None => (st.(txn), bump st.(counts) 0 0 0)
    | Err _ => (st.(txn), bump st.(counts) 0 0 1)
    end in
  if COMMIT_EVERY_LINES <=? batch then
    let tx2 := upsert_source_file_row tx1 source_path size mtime offset lineno
                 (base_errors + c1.(parse_errors)) in
    {| committed := tx2; txn := tx2; current_offset := offset; current_line := lineno;
       batch_lines := 0; discovered := disc; counts := c1 |}
  else
    {| committed := st.(committed); txn := tx1; current_offset := offset;
       current_line := lineno; batch_lines := batch; discovered := disc; counts := c1 |}.

(** The loop: stop on cancellation or at end of file; a read error ends
    [process_file] with the last committed state. *)
Fixpoint run_lines (i : nat) (lines : list (list ascii)) (st : LoopState)
  : result LoopState UsageDb :=
  match lines with
  | [] => Ok st
  | ln :: rest =>
      if cancel_requested i then Ok st
      else if negb (valid_utf8 ln) then Err st.(committed)
      else run_lines (S i) rest (step_line ln st)
  end.
End Loop.

Definition zero_counts : FileProcessResult :=
  {| lines_processed := 0; entries_indexed := 0; entries_ignored := 0; parse_errors := 0 |}.

(** [process_file] on a file with the given path, bytes, size and
    modification time; it returns the committed database and the file's
    counters, or the seek or read error (then with the state committed so
    far). Seeking past the end succeeds and reads nothing. *)
Definition process_file (db : UsageDb) (source_path : string) (content : list ascii)
  (size mtime : Z) (cancel_requested : nat -> bool)
  : UsageDb * result FileProcessResult string :=
  let '(db0, cur) := process_file_start db source_path size mtime in
  if cur.(start_offset) <? 0 then
    (db0, Err ("Failed to seek usage file " ++ source_path ++ ": " ++ seek_error)%string)
  else
  let lines := read_lines (skipn (Z.to_nat cur.(start_offset)) content) in
  let hint := infer_project_hint source_path in
  let sid := fallback_session_id source_path in
  let st0 := {| committed := db0; txn := db0; current_offset := cur.(start_offset);
                current_line := cur.(start_line); batch_lines := 0; discovered := None;
                counts := zero_counts |} in
  match run_lines source_path hint sid size mtime cur.(base_parse_errors)
          cancel_requested 0 lines st0 with
  | Err committed_db =>
      (committed_db, Err ("Failed reading usage file " ++ source_path ++ ": "
                          ++ read_error)%string)
  | Ok st =>
      (upsert_source_file_row st.(txn) source_path size mtime st.(current_offset)
         st.(current_line) (cur.(base_parse_errors) + st.(counts).(parse_errors)),
       Ok st.(counts))
  end.

End Parse.

(** The rows of [usage_events] and [source_files] that belong to a source
    path other than [path]. *)
Definition other_events (path : string) (d : UsageDb) : list UsageEvent :=
  filter (fun e => negb (String.eqb (ev_source_path e) path)) (usage_events d).
Definition other_rows (path : string) (d : UsageDb) : list SourceFileRow :=
  filter (fun r => negb (String.eqb (sf_source_path r) path)) (source_files d).

End UsageIndex.

(** ** Run metrics of the agent supervisor ([AgentRunMetrics::from_jsonl],
    commands/agents.rs) *)
Module AgentMetrics.
Import Str CodexTransform.
Local Open Scope Z_scope.

Definition carriage_return : ascii := ascii_of_nat 13.

(** The [LinesMap] of [str::lines]: a piece of [split_inclusive('\n')]
    loses its newline, and then a carriage return before it. *)
Definition lines_map (piece : list ascii) : list ascii :=
  match rev piece with
  | a :: r =>
      if Ascii.eqb a UsageIndex.newline_char then
        match r with
        | b :: r' => if Ascii.eqb b carriage_return then rev r' else rev r
        | [] => []
        end
      else piece
  | [] => []
  end.

(** [str::lines] *)
Definition lines (s : string) : list string :=
  map (fun piece => string_of_list_ascii (lines_map piece))
    (UsageIndex.read_lines (list_ascii_of_string s)).

(** [i64] addition as a release build does it, wrapping. *)
Definition i64_wrap (z : Z) : Z := (z + 2 ^ 63) mod 2 ^ 64 - 2 ^ 63.

(** [Value::as_i64] *)
Definition as_i64 (v : Value) : option Z :=
  match v with
  | VNum n => if (- 2 ^ 63 <=? n) && (n <? 2 ^ 63) then Some n else None
  | _ => None
  end.

Section Metrics.
(** [f64], its [0.0], [+=], [> 0.0] and [Value::as_f64]. *)
Variable F : Type.
Variable f_zero : F.
Variable f_add : F -> F -> F.
Variable f_pos : F -> bool.
Variable as_f64 : Value -> option F.
(** [serde_json::from_str::<JsonValue>] *)
Variable from_str : string -> option Value.
(** [DateTime::parse_from_rfc3339] followed by [with_timezone(&Utc)]: the
    instant in nanoseconds. *)
Variable parse_from_rfc3339 : string -> option Z.

Record AgentRunMetrics := {
  duration_ms : option Z;
  total_tokens : option Z;
  cost_usd : option F;
  message_count : option Z
}.

(** The loop's variables. *)
Record Acc := {
  acc_total_tokens : Z;
  acc_cost_usd : F;
  acc_message_count : Z;
  acc_start_time : option Z;
  acc_end_time : option Z
}.

(** One iteration of the loop over the lines. *)
Definition metrics_step (acc : Acc) (line : string) : Acc :=
  match from_str line with
  | None => acc
  | Some json =>
      let message_count := acc.(acc_message_count) + 1 in
      let times :=
        match bind (get_str "timestamp" json) parse_from_rfc3339 with
        | Some utc_time =>
            (match acc.(acc_start_time) with
             | Some s => if utc_time <? s then Some utc_time else Some s
             | None => Some utc_time
             end,
             match acc.(acc_end_time) with
             | Some e => if e <? utc_time then Some utc_time else Some e
             | None => Some utc_time
             end)
        | None => (acc.(acc_start_time), acc.(acc_end_time))
        end in
      let usage :=
        match get "usage" json with
        | Some u => Some u
        | None => bind (get "message" json) (get "usage")
        end in
      let total_tokens :=
        match usage with
        | Some u =>
            let t := match bind (get "input_tokens" u) as_i64 with
                     | Some i => i64_wrap (acc.(acc_total_tokens) + i)
                     | None => acc.(acc_total_tokens)
                     end in
            match bind (get "output_tokens" u) as_i64 with
            | Some o => i64_wrap (t + o)
            | None => t
            end
        | None => acc.(acc_total_tokens)
        end in
      let cost_usd :=
        match bind (get "cost" json) as_f64 with
        | Some c => f_add acc.(acc_cost_usd) c
        | None => acc.(acc_cost_usd)
        end in
      {| acc_total_tokens := total_tokens; acc_cost_usd := cost_usd;
         acc_message_count := message_count;
         acc_start_time := fst times; acc_end_time := snd times |}
  end.

(** [AgentRunMetrics::from_jsonl]; [num_milliseconds] truncates toward
    zero. *)
Definition from_jsonl (jsonl_content : string) : AgentRunMetrics :=
  let acc := fold_left metrics_step (lines jsonl_content)
               {| acc_total_tokens := 0; acc_cost_usd := f_zero; acc_message_count := 0;
                  acc_start_time := None; acc_end_time := None |} in
  {| duration_ms :=
       match acc.(acc_start_time), acc.(acc_end_time) with
       | Some start, Some end_ => Some (Z.quot (end_ - start) 1000000)
       | _, _ => None
       end;
     total_tokens := if 0 <? acc.(acc_total_tokens) then Some acc.(acc_total_tokens) else None;
     cost_usd := if f_pos acc.(acc_cost_usd) then Some acc.(acc_cost_usd) else None;
     message_count :=
       if 0 <? acc.(acc_message_count) then Some acc.(acc_message_count) else None |}.

(** Whether a line parses as JSON, and whether it also carries a
    timestamp that parses. *)
Definition parses (l : string) : bool :=
  match from_str l with Some _ => true | None => false end.

Definition has_time (l : string) : bool :=
  match from_str l with
  | Some json => match bind (get_str "timestamp" json) parse_from_rfc3339 with
                 | Some _ => true | None => false end
  | None => false
  end.

Definition times_inv (acc : Acc) (b : bool) : Prop :=
  match acc.(acc_start_time), acc.(acc_end_time) with
  | None, None => b = false
  | Some s, Some e => b = true /\ (s <= e)%Z
  | _, _ => False
  end.

End Metrics.

End AgentMetrics.

(** ** Sample inputs of the usage indexer *)
Module UsageSamples.
Import UsageSync UsageIndex.

Definition sample_usage : UsageData :=
  {| input_tokens := Some 12%Z; output_tokens := Some 3%Z;
     cache_creation_input_tokens := None; cache_read_input_tokens := None |}.

(** A JSON reader that accepts the lines starting with [{]. *)
Definition sample_from_str (line : string) : result CodexTransform.Value string :=
  if prefix "{" line then Ok CodexTransform.VNull else Err "expected value".

(** Every accepted line is an assistant message without message or request
    id. *)
Definition sample_from_value (_ : CodexTransform.Value) : result (JsonlEntry unit) string :=
  Ok {| timestamp := "2026-01-05T10:00:00Z";
        message := Some {| msg_id := None; msg_model := Some "claude-sonnet";
                           usage := Some sample_usage |};
        entry_session_id := None; request_id := None; cost_usd := Some tt |}.

(** Two lines: an accepted one and a malformed one. *)
Definition sample_content : list ascii :=
  list_ascii_of_string "{}" ++ [newline_char] ++ list_ascii_of_string "oops" ++ [newline_char].

Definition sample_db : UsageDb :=
  {| usage_events := [{| event_uid := "mr:m1:r1"; ev_source_path := "/home/u/a.jsonl";
                         source_line := 1%Z |}];
     source_files := [{| sf_source_path := "/home/u/a.jsonl"; size_bytes := 100%Z;
                         modified_unix_ms := 5%Z; last_offset := 100%Z; last_line := 1%Z;
                         parse_error_count := 0%Z |}] |}.

Definition sample_process_file :=
  process_file unit sample_from_str sample_from_value (fun _ _ => tt) (fun _ => None)
    (fun _ => true) "stream did not contain valid UTF-8" "Invalid argument (os error 22)".

End UsageSamples.

(** A path segment as written between separators: non-empty, without [/],
    and neither [.] nor [..]. *)
Definition plain_segment (s : string) : Prop :=
  s <> EmptyString /\ s <> "." /\ s <> ".." /\ ~ In "/"%char (list_ascii_of_string s).

(** * Properties *)

Module ArgvProps.
Import Runtime.

Lemma append_optional_model_arg_spec (args : list string) (m : string) :
  append_optional_model_arg args m = args ++ spec_model_flag m.
Proof.
  unfold append_optional_model_arg, spec_model_flag.
  destruct (Str.is_empty (Str.trim m) || Str.eq_ignore_ascii_case (Str.trim m) "default");
    [rewrite app_nil_r|]; reflexivity.
Qed.

Lemma agent_model_args_spec (m : string) :
  (if negb (Str.is_empty (Str.trim m))
      && negb (Str.eq_ignore_ascii_case (Str.trim m) "default")
   then ["--model"; Str.trim m] else []) = spec_model_flag m.
Proof.
  unfold spec_model_flag.
  destruct (Str.is_empty (Str.trim m)), (Str.eq_ignore_ascii_case (Str.trim m) "default");
    reflexivity.
Qed.

(** C3 (counterexample): the supervisor's claude argv carries a
    [--system-prompt] pair between the prompt and the model/tail flags, so it
    is not [-p <prompt> [--model <m>] --output-format stream-json --verbose
    --dangerously-skip-permissions]. *)
Lemma claude_supervisor_argv_has_system_prompt :
  AgentArgs.build_provider_args "claude" "hi" EmptyString (Some "be brief") None
  = ["-p"; "hi"; "--system-prompt"; "be brief"; "--output-format";
     "stream-json"; "--verbose"; "--dangerously-skip-permissions"]
  /\ AgentArgs.build_provider_args "claude" "hi" EmptyString (Some "be brief") None
     <> ["-p"; "hi"] ++ spec_model_flag EmptyString ++ claude_tail.
Proof. split; [reflexivity | discriminate]. Qed.

(** C3 (amended): the supervisor builds, for claude, [-p <prompt>
    --system-prompt <system prompt or empty> [--model <m>] <tail>], and the
    registry's claude [build_args] for an Execute request builds exactly
    [-p <prompt> [--model <m>] <tail>], the model pair following the model
    rule. *)
Theorem claude_execute_argv (task m : string) (sp effort : option string)
  (req : ProviderCommandRequest) :
  AgentArgs.build_provider_args "claude" task m sp effort
  = ["-p"; task; "--system-prompt"; AgentArgs.unwrap_or sp EmptyString]
    ++ spec_model_flag m ++ claude_tail
  /\ (req.(kind) = Execute ->
      claude_build_args req
      = Ok (["-p"; req.(prompt)] ++ spec_model_flag req.(model) ++ claude_tail)).
Proof.
  split.
  - unfold AgentArgs.build_provider_args; simpl.
    rewrite agent_model_args_spec. reflexivity.
  - intros Hk. unfold claude_build_args. rewrite Hk.
    rewrite append_optional_model_arg_spec, <- app_assoc. reflexivity.
Qed.

Lemma claude_execute_argv_witness :
  let req := {| kind := Execute; prompt := "fix it"; model := " Opus ";
                session_id := None; reasoning_effort := None |} in
  req.(kind) = Execute
  /\ claude_build_args req
     = Ok (["-p"; req.(prompt)] ++ spec_model_flag req.(model) ++ claude_tail).
Proof.
  intros req. split; [reflexivity|].
  exact (proj2 (claude_execute_argv "fix it" " Opus " None None req) eq_refl).
Defined.

Example claude_execute_argv_example :
  claude_build_args {| kind := Execute; prompt := "fix it"; model := " Opus ";
                       session_id := None; reasoning_effort := None |}
  = Ok ["-p"; "fix it"; "--model"; "Opus"; "--output-format"; "stream-json";
        "--verbose"; "--dangerously-skip-permissions"].
Proof. reflexivity. Qed.

End ArgvProps.

Module ModelArgProps.
Import Runtime.

(** C4 (code bug): for a whitespace-only model, the codex builder appends
    [--model "   "] whatever the prompt, kind, session id and reasoning
    effort, although the trimmed model is empty; the aider and opencode
    builders, which trim through [append_optional_model_arg], add no
    [--model] for the same request. *)
Theorem codex_whitespace_model_flag (k : ProviderCommandKind) (p : string)
  (sid e : option string) :
  let req := {| kind := k; prompt := p; model := "   ";
                session_id := sid; reasoning_effort := e |} in
  Str.trim req.(model) = EmptyString
  /\ codex_build_args req
     = Ok (["exec"; "--json"; p; "--model"; "   "] ++ codex_effort_args e)
  /\ spec_model_flag req.(model) = []
  /\ aider_build_args req = Ok ["--message"; p; "--yes"]
  /\ opencode_build_args req = Ok ["run"; p].
Proof.
  intros req; split; [reflexivity|]; split.
  - unfold codex_build_args, codex_effort_args; cbn [model prompt reasoning_effort req].
    destruct (sanitize_reasoning_effort e); reflexivity.
  - split; [reflexivity|]; split; reflexivity.
Qed.

Example whitespace_model_examples :
  aider_build_args {| kind := Execute; prompt := "p"; model := "   ";
                      session_id := None; reasoning_effort := None |}
  = Ok ["--message"; "p"; "--yes"]
  /\ claude_build_args {| kind := Continue; prompt := "p"; model := "DEFAULT";
                          session_id := None; reasoning_effort := None |}
     = Ok ["-c"; "-p"; "p"; "--output-format"; "stream-json"; "--verbose";
           "--dangerously-skip-permissions"].
Proof. split; reflexivity. Qed.

End ModelArgProps.

Module MonitorProps.
Import Supervisor.

Lemma poll_times_out (inp : MonitorInput) :
  (forall j, (j <= 299)%nat -> first_output_at inp j = false) ->
  forall k i, (i + k = 300)%nat -> (i <= 299)%nat -> poll inp k i = TimedOut.
Proof.
  intros Hno k. induction k as [|k IH]; intros i Hsum Hle; [lia|].
  simpl. rewrite (Hno i Hle).
  destruct (Nat.eqb_spec i 299) as [->|Hne]; [reflexivity|].
  apply IH; lia.
Qed.

Lemma poll_detects (inp : MonitorInput) (t : nat) :
  (forall j, first_output_at inp j = Nat.leb t j) -> (t <= 299)%nat ->
  forall k i, (i + k = 300)%nat -> (i <= t)%nat -> poll inp k i = Detected t.
Proof.
  intros Hf Ht k. induction k as [|k IH]; intros i Hsum Hle; [lia|].
  simpl. rewrite Hf.
  destruct (Nat.leb_spec t i) as [Hti|Hti].
  - replace i with t by lia. reflexivity.
  - destruct (Nat.eqb_spec i 299) as [->|Hne]; [lia|].
    apply IH; lia.
Qed.

Lemma monitor_without_timeout (inp : MonitorInput) (st : SupState) :
  (inp.(provider_id) <> "claude"
   \/ exists t, inp.(first_stdout_tick) = Some t /\ (t <= 299)%nat) ->
  monitor inp st = on_exit inp st.
Proof.
  intros H. unfold monitor.
  destruct H as [Hp | [t [Ht Hle]]].
  - simpl. unfold first_output_at.
    apply String.eqb_neq in Hp. rewrite Hp. reflexivity.
  - destruct (String.eqb_spec inp.(provider_id) "claude") as [Hc|Hc].
    + rewrite (poll_detects inp t) with (i := 0%nat); [reflexivity| | | lia | lia]; auto.
      intros j. unfold first_output_at. rewrite Hc, Ht. reflexivity.
    + simpl. unfold first_output_at.
      apply String.eqb_neq in Hc. rewrite Hc. reflexivity.
Qed.

Lemma monitor_with_timeout (inp : MonitorInput) (st : SupState) :
  inp.(provider_id) = "claude" ->
  (forall t, inp.(first_stdout_tick) = Some t -> (299 < t)%nat) ->
  monitor inp st = on_timeout inp st.
Proof.
  intros Hc Hno. unfold monitor.
  rewrite (poll_times_out inp) with (i := 0%nat); [reflexivity| | lia | lia].
  intros j Hj. unfold first_output_at. rewrite Hc. simpl.
  destruct inp.(first_stdout_tick) as [t|] eqn:E; [|reflexivity].
  specialize (Hno t eq_refl). apply Nat.leb_gt. lia.
Qed.

(** C1 (counterexample): a claude run that produced output and exits with code
    130 is persisted as 'failed' and completes with payload [false], not as
    'cancelled'. *)
Lemma exit_130_persisted_failed :
  let inp := {| provider_id := "claude"; run_id := 7; first_stdout_tick := Some 0%nat;
                kill_term_result := KillOk; wait_result := Ok (Exited 130);
                extracted_session_id := "abc-123"; initial_session_id := EmptyString;
                live_output := "out" |} in
  let st := {| row := {| row_status := "running"; row_output := EmptyString;
                         row_session_id := "abc-123"; row_completed_at_set := false |};
               registered := true; emitted := []; signals := [] |} in
  (monitor inp st).(row).(row_status) = "failed"
  /\ (monitor inp st).(emitted)
     = [(Generic "agent-complete", false); (Scoped "agent-complete" 7, false)].
Proof. split; reflexivity. Qed.

(** C1 (amended): once the monitor has seen output (or is not timing a
    non-claude run) and the child is waited on, a row still 'running' is
    persisted as 'completed' when [exit.success()] and as 'failed' otherwise
    (any non-zero code, 130 and 143 included, a signal, or a wait error); a
    row in any other status, such as 'cancelled', is left as is; the
    completion payload on both agent-complete channels is that success
    boolean; the run is unregistered. *)
Theorem monitor_exit_classification (inp : MonitorInput) (st : SupState) :
  (inp.(provider_id) <> "claude"
   \/ exists t, inp.(first_stdout_tick) = Some t /\ (t <= 299)%nat) ->
  let ok := match inp.(wait_result) with Ok s => success s | Err _ => false end in
  (st.(row).(row_status) = "running" ->
   (monitor inp st).(row).(row_status) = (if ok then "completed" else "failed"))
  /\ (st.(row).(row_status) <> "running" -> (monitor inp st).(row) = st.(row))
  /\ (monitor inp st).(emitted)
     = st.(emitted) ++ [(Generic "agent-complete", ok);
                        (Scoped "agent-complete" inp.(run_id), ok)]
  /\ (monitor inp st).(registered) = false
  /\ (ok = true <-> exists s, inp.(wait_result) = Ok s /\ code s = Some 0%Z).
Proof.
  intros Hw ok.
  rewrite (monitor_without_timeout inp st Hw).
  unfold on_exit, update_if_running; cbn [row emitted registered].
  split; [intros Hrun; rewrite Hrun; reflexivity|].
  split; [intros Hn; apply String.eqb_neq in Hn; rewrite Hn; reflexivity|].
  split; [reflexivity|]. split; [reflexivity|].
  unfold ok. destruct inp.(wait_result) as [s|e].
  - destruct s as [c|]; simpl.
    + split.
      * intros H. apply Z.eqb_eq in H. subst. eauto.
      * intros [s' [Hs' Hc]]. injection Hs' as <-. injection Hc as ->. reflexivity.
    + split; [discriminate|]. intros [s' [Hs' Hc]]. injection Hs' as <-. discriminate.
  - split; [discriminate|]. intros [s' [Hs' _]]. discriminate.
Qed.

Lemma monitor_exit_classification_witness :
  let inp := {| provider_id := "codex"; run_id := 3; first_stdout_tick := None;
                kill_term_result := KillOk; wait_result := Ok (Exited 0);
                extracted_session_id := EmptyString;
                initial_session_id := "codex-run-1"; live_output := "hi" |} in
  let running := {| row := {| row_status := "running"; row_output := EmptyString;
                              row_session_id := "codex-run-1"; row_completed_at_set := false |};
                    registered := true; emitted := []; signals := [] |} in
  let cancelled := {| row := {| row_status := "cancelled"; row_output := EmptyString;
                                row_session_id := "codex-run-1"; row_completed_at_set := true |};
                      registered := true; emitted := []; signals := [] |} in
  (inp.(provider_id) <> "claude"
   \/ exists t, inp.(first_stdout_tick) = Some t /\ (t <= 299)%nat)
  /\ (monitor inp running).(row).(row_status) = "completed"
  /\ (monitor inp cancelled).(row) = cancelled.(row).
Proof.
  intros inp running cancelled.
  assert (Hp : inp.(provider_id) <> "claude") by discriminate.
  split; [left; exact Hp|]. split.
  - exact (proj1 (monitor_exit_classification inp running (or_introl Hp)) eq_refl).
  - apply (proj1 (proj2 (monitor_exit_classification inp cancelled (or_introl Hp)))).
    discriminate.
Defined.

(** C2 (counterexample): a codex run that never writes to stdout is not timed
    out (its first-output flag starts set): no kill is issued and the row ends
    'completed' when the child exits 0; and for a claude run that times out,
    a successful [kill -TERM] is not followed by [kill -KILL]. *)
Lemma no_timer_for_non_claude :
  let st := {| row := {| row_status := "running"; row_output := EmptyString;
                         row_session_id := EmptyString; row_completed_at_set := false |};
               registered := true; emitted := []; signals := [] |} in
  let codex := {| provider_id := "codex"; run_id := 1; first_stdout_tick := None;
                  kill_term_result := KillOk; wait_result := Ok (Exited 0);
                  extracted_session_id := EmptyString;
                  initial_session_id := "codex-run-1"; live_output := EmptyString |} in
  let claude := {| provider_id := "claude"; run_id := 2; first_stdout_tick := None;
                   kill_term_result := KillOk; wait_result := Ok (Exited 0);
                   extracted_session_id := EmptyString;
                   initial_session_id := EmptyString; live_output := EmptyString |} in
  (monitor codex st).(signals) = []
  /\ (monitor codex st).(row).(row_status) = "completed"
  /\ (monitor claude st).(signals) = [SIGTERM].
Proof. split; [|split]; vm_compute; reflexivity. Qed.

(** C2 (amended): only claude runs are timed. A claude run with no stdout
    line by the 300th 100 ms poll gets [kill -TERM], followed by
    [kill -KILL] only when the TERM command exits non-zero; a row still
    'running' is marked 'failed'; the run is unregistered and agent-complete
    is emitted with [false] on both channels. A claude run whose first stdout
    line is seen by then, and every non-claude run, proceeds to wait for the
    child. *)
Theorem claude_first_output_timeout (inp : MonitorInput) (st : SupState) :
  (inp.(provider_id) = "claude" ->
   (forall t, inp.(first_stdout_tick) = Some t -> (299 < t)%nat) ->
   let st' := monitor inp st in
   st'.(signals) = st.(signals) ++
     (match inp.(kill_term_result) with
      | KillNonZero => [SIGTERM; SIGKILL]
      | _ => [SIGTERM]
      end)
   /\ (st.(row).(row_status) = "running" -> st'.(row).(row_status) = "failed")
   /\ st'.(registered) = false
   /\ st'.(emitted) = st.(emitted) ++ [(Generic "agent-complete", false);
                                       (Scoped "agent-complete" inp.(run_id), false)])
  /\ (inp.(provider_id) <> "claude"
      \/ (exists t, inp.(first_stdout_tick) = Some t /\ (t <= 299)%nat) ->
      monitor inp st = on_exit inp st).
Proof.
  split.
  - intros Hc Hno st'. unfold st'.
    rewrite (monitor_with_timeout inp st Hc Hno).
    unfold on_timeout, update_if_running; simpl.
    split; [destruct inp.(kill_term_result); reflexivity|].
    split; [intros Hr; rewrite Hr; reflexivity|].
    split; reflexivity.
  - intros H. apply monitor_without_timeout. destruct H as [H|H]; auto.
Qed.

Lemma claude_first_output_timeout_witness :
  let inp := {| provider_id := "claude"; run_id := 4; first_stdout_tick := None;
                kill_term_result := KillNonZero; wait_result := Ok (Exited 0);
                extracted_session_id := EmptyString;
                initial_session_id := EmptyString; live_output := EmptyString |} in
  let st := {| row := {| row_status := "running"; row_output := EmptyString;
                         row_session_id := EmptyString; row_completed_at_set := false |};
               registered := true; emitted := []; signals := [] |} in
  inp.(provider_id) = "claude"
  /\ (forall t, inp.(first_stdout_tick) = Some t -> (299 < t)%nat)
  /\ (monitor inp st).(signals) = [SIGTERM; SIGKILL]
  /\ (monitor inp st).(row).(row_status) = "failed".
Proof.
  intros inp st.
  assert (Hno : forall t, inp.(first_stdout_tick) = Some t -> (299 < t)%nat)
    by discriminate.
  destruct (proj1 (claude_first_output_timeout inp st) eq_refl Hno)
    as [Hs [Hr [_ _]]].
  split; [reflexivity|]. split; [exact Hno|].
  split; [exact Hs | exact (Hr eq_refl)].
Defined.

End MonitorProps.

Module CancelProps.
Import Supervisor Cancel.

(** C5 (code_bug): after a first [kill_agent_session] has killed the process
    through the registry and set the row to 'cancelled', and the monitor has
    unregistered the run (the registry now reports the run as not found),
    a second call with the same run_id does not return without error: the
    fallback [SELECT pid ... WHERE status = 'running'] finds no row and its
    error is propagated by [?]. The row itself is left unchanged. *)
Theorem kill_agent_session_second_call_errors :
  let st0 := {| krow := Some {| k_status := "running"; k_output := EmptyString;
                                k_pid := Some 4242%Z |};
                kevents := []; pid_kills := [] |} in
  let first := {| k_run_id := 5%Z; registry_kill := Ok true; pid_kill := Ok true;
                  registry_live_output := "partial" |} in
  let second := {| k_run_id := 5%Z; registry_kill := Ok false; pid_kill := Ok true;
                   registry_live_output := EmptyString |} in
  let (st1, r1) := kill_agent_session first st0 in
  let (st2, r2) := kill_agent_session second st1 in
  r1 = Ok true
  /\ st1.(krow) = Some {| k_status := "cancelled"; k_output := "partial";
                          k_pid := Some 4242%Z |}
  /\ r2 = Err query_returned_no_rows
  /\ st2.(krow) = st1.(krow).
Proof. vm_compute. repeat split. Qed.

End CancelProps.

Module BrokerProps.
Import Broker.
Local Open Scope Z_scope.

Lemma next_value (s : Z) :
  0 <= s -> s + 1 < u64_modulus -> (s + 1) mod u64_modulus = s + 1.
Proof. intros. apply Z.mod_small. lia. Qed.

(** One scheduled step allocates at most one sequence number, the next one. *)
Lemma step_task_allocates (c : Cache) (t : Task) :
  0 <= c.(sequence) -> c.(sequence) + 1 < u64_modulus ->
  let (c1, _) := step_task c t in
  (c1.(history) = c.(history) /\ c1.(sequence) = c.(sequence))
  \/ (exists e, c1.(history) = c.(history) ++ [e]
        /\ emission_sequence e = c.(sequence) + 1
        /\ c1.(sequence) = c.(sequence) + 1).
Proof.
  intros H0 H1. pose proof (next_value _ H0 H1) as Hv.
  destruct t as [st|snap|ty p|]; simpl.
  - right. eexists. rewrite Hv. split; [reflexivity|]. simpl. auto.
  - right. unfold snapshot_finish, publish_event; simpl. rewrite Hv.
    eexists. split; [reflexivity|]. simpl. auto.
  - right. unfold publish_event; simpl. rewrite Hv.
    eexists. split; [reflexivity|]. simpl. auto.
  - left. auto.
Qed.

Lemma last_default (l : list Z) (d1 d2 : Z) : l <> [] -> last l d1 = last l d2.
Proof.
  induction l as [|a r IH]; intros H; [congruence|].
  destruct r as [|b r']; [reflexivity|].
  simpl. apply IH. discriminate.
Qed.

Lemma last_cons (x d : Z) (r : list Z) : last (x :: r) d = last r x.
Proof.
  destruct r as [|z r]; [reflexivity|].
  change (last (z :: r) d = last (z :: r) x). apply last_default. discriminate.
Qed.

Lemma dense_from_snoc (c : Z) (l : list Z) :
  dense_from c l -> dense_from c (l ++ [last l c + 1]).
Proof.
  revert c. induction l as [|x r IH]; intros c H.
  - simpl. auto.
  - destruct H as [Hx Hr]. rewrite last_cons.
    simpl. split; [exact Hx|]. apply IH. exact Hr.
Qed.

Lemma last_snoc (l : list Z) (x d : Z) : last (l ++ [x]) d = x.
Proof.
  induction l as [|y r IH]; [reflexivity|].
  simpl. rewrite IH. destruct (r ++ [x]) eqn:E; [destruct r; discriminate|reflexivity].
Qed.

(** Under any interleaving of concurrent publishers, the sequences allocated
    (snapshots and events alike) continue densely from the broker's counter. *)
Lemma run_dense (sched : list nat) :
  forall c ts, 0 <= c.(sequence) ->
  c.(sequence) + Z.of_nat (length sched) < u64_modulus ->
  let (c', _) := run sched c ts in
  exists l, c'.(history) = c.(history) ++ l
    /\ dense_from c.(sequence) (map emission_sequence l)
    /\ c'.(sequence) = last (map emission_sequence l) c.(sequence).
Proof.
  induction sched as [|i rest IH]; intros c ts H0 Hb; simpl.
  - exists []. rewrite app_nil_r. simpl. auto.
  - simpl in Hb.
    pose proof (step_task_allocates c (nth i ts TDone) H0 ltac:(lia)) as Hs.
    destruct (step_task c (nth i ts TDone)) as [c1 t1].
    destruct Hs as [[Hh Hq] | [e [Hh [He Hq]]]].
    + specialize (IH c1 (replace_nth ts i t1) ltac:(lia) ltac:(lia)).
      destruct (run rest c1 (replace_nth ts i t1)) as [c' ts'].
      destruct IH as [l [Hl [Hd Hs]]]. exists l.
      rewrite Hl, Hh, <- Hq. auto.
    + specialize (IH c1 (replace_nth ts i t1) ltac:(lia) ltac:(lia)).
      destruct (run rest c1 (replace_nth ts i t1)) as [c' ts'].
      destruct IH as [l [Hl [Hd Hs]]]. exists (e :: l).
      rewrite Hl, Hh, <- app_assoc. split; [reflexivity|].
      split.
      * cbn [map dense_from]. rewrite He, <- Hq. split; [reflexivity | exact Hd].
      * rewrite Hs. cbn [map]. rewrite last_cons.
        destruct l as [|e0 l]; cbn [map]; [simpl; lia|].
        apply last_default. discriminate.
Qed.

(** C6 (counterexample): with a concurrent [publish_event] allocating between
    a snapshot's allocation and its [snapshot.updated], the snapshot gets
    sequence 1, the other event 2, and [snapshot.updated] 3, not 2. *)
Lemma snapshot_updated_not_next_under_interleaving :
  let (c, _) := run [0%nat; 1%nat; 0%nat] new_cache
                  [TSnapshot "s"; TEvent "mobile.action.requested" (POpaque "{}")] in
  map emission_sequence c.(history) = [1; 2; 3]
  /\ c.(latest) = Some {| snap_sequence := 1; snap_state := "s" |}
  /\ c.(channel)
     = [{| env_sequence := 2; event_type := "mobile.action.requested";
           payload := POpaque "{}" |};
        {| env_sequence := 3; event_type := "snapshot.updated";
           payload := PSequence 1 |}].
Proof. vm_compute. repeat split. Qed.

(** C6 (amended): while the counter stays below 2^64, the sequences allocated
    by any interleaving of publishers (snapshots and events alike) continue
    the broker's counter densely and strictly increasing; and a
    [publish_snapshot] with no other emission in between gives the snapshot
    sequence N and immediately sends [snapshot.updated] with sequence N+1 and
    payload [{sequence: N}]. *)
Theorem broker_sequences (sched : list nat) (c : Cache) (ts : list Task) (st : string) :
  0 <= c.(sequence) ->
  c.(sequence) + Z.of_nat (length sched) + 2 < u64_modulus ->
  (let (c', _) := run sched c ts in
   exists l, c'.(history) = c.(history) ++ l
     /\ dense_from c.(sequence) (map emission_sequence l)
     /\ c'.(sequence) = last (map emission_sequence l) c.(sequence))
  /\ (let (c', snap) := publish_snapshot c st in
      let n := c.(sequence) + 1 in
      snap = {| snap_sequence := n; snap_state := st |}
      /\ c'.(latest) = Some snap
      /\ c'.(channel) = c.(channel) ++ [{| env_sequence := n + 1;
                                           event_type := "snapshot.updated";
                                           payload := PSequence n |}]
      /\ c'.(history) = c.(history) ++
           [ESnapshot snap; EEvent {| env_sequence := n + 1;
                                      event_type := "snapshot.updated";
                                      payload := PSequence n |}]
      /\ c'.(sequence) = n + 1).
Proof.
  intros H0 Hb. split.
  - apply run_dense; [exact H0 | lia].
  - unfold publish_snapshot, snapshot_alloc, snapshot_finish, publish_event,
      next_sequence; simpl.
    rewrite (next_value (sequence c)) by lia.
    rewrite (next_value (sequence c + 1)) by lia.
    simpl. rewrite <- !app_assoc. repeat split.
Qed.

Lemma broker_sequences_witness :
  0 <= new_cache.(sequence)
  /\ new_cache.(sequence) + Z.of_nat (length [0%nat; 1%nat]) + 2 < u64_modulus
  /\ (let (c', snap) := publish_snapshot new_cache "s" in
      snap = {| snap_sequence := 1; snap_state := "s" |}).
Proof.
  assert (H0 : 0 <= new_cache.(sequence)) by (simpl; lia).
  assert (Hb : new_cache.(sequence) + Z.of_nat (length [0%nat; 1%nat]) + 2 < u64_modulus)
    by (vm_compute; reflexivity).
  split; [exact H0|]. split; [exact Hb|].
  destruct (broker_sequences [0%nat; 1%nat] new_cache [TSnapshot "s"; TSnapshot "t"] "s" H0 Hb)
    as [_ H].
  destruct (publish_snapshot new_cache "s") as [c' snap].
  exact (proj1 H).
Defined.

Example publish_snapshot_then_event :
  let (c1, snap) := publish_snapshot new_cache "st" in
  let (c2, env) := publish_event c1 "mobile.action.requested" (POpaque "{}") in
  snap.(snap_sequence) = 1 /\ env.(env_sequence) = 3
  /\ map env_sequence c2.(channel) = [2; 3].
Proof. vm_compute. repeat split. Qed.

End BrokerProps.

Module WsProps.
Import Broker WsServer.
Local Open Scope Z_scope.

(** C7: for u64 [since] and [current], [requires_resnapshot since current]
    holds exactly when [since + 1 < current] (non-wrapping sum), and a new
    WebSocket client is first sent a [sync.resnapshot_required] envelope with
    reason [sequence_gap] exactly then. *)
Theorem requires_resnapshot_iff (since current : Z) :
  0 <= since < u64_modulus -> 0 <= current < u64_modulus ->
  (requires_resnapshot since current = true <-> since + 1 < current)
  /\ ws_initial_frames since current
     = if since + 1 <? current
       then [{| env_sequence := current; event_type := "sync.resnapshot_required";
                payload := PResnapshot "sequence_gap" since |}]
       else [].
Proof.
  intros Hs Hc.
  assert (E : requires_resnapshot since current = (since + 1 <? current)).
  { unfold requires_resnapshot, saturating_add, u64_max.
    destruct (Z.min_spec (since + 1) (u64_modulus - 1)) as [[_ ->]|[Hge ->]].
    - reflexivity.
    - destruct (Z.ltb_spec (u64_modulus - 1) current),
               (Z.ltb_spec (since + 1) current); lia. }
  split.
  - rewrite E. apply Z.ltb_lt.
  - unfold ws_initial_frames. rewrite E. reflexivity.
Qed.

Lemma requires_resnapshot_iff_witness :
  (0 <= 0 < u64_modulus) /\ (0 <= 700 < u64_modulus)
  /\ requires_resnapshot 0 700 = true
  /\ (0 <= u64_max < u64_modulus)
  /\ requires_resnapshot u64_max u64_max = false.
Proof.
  assert (H0 : 0 <= 0 < u64_modulus) by (unfold u64_modulus; lia).
  assert (H7 : 0 <= 700 < u64_modulus) by (unfold u64_modulus; lia).
  assert (Hm : 0 <= u64_max < u64_modulus) by (unfold u64_max, u64_modulus; lia).
  split; [exact H0|]. split; [exact H7|].
  split; [apply (proj1 (requires_resnapshot_iff 0 700 H0 H7)); lia|].
  split; [exact Hm|].
  destruct (requires_resnapshot u64_max u64_max) eqn:E; [|reflexivity].
  apply (proj1 (requires_resnapshot_iff u64_max u64_max Hm Hm)) in E. lia.
Defined.

End WsProps.

Module UsageSyncProps.
Import UsageSync.
Local Open Scope Z_scope.

(** C8: for a tracked file, a scan whose current size is below the stored
    offset, or equal to the stored size with a different mtime, deletes every
    [usage_events] row of that source path and restarts at offset 0, line 0;
    otherwise the events are untouched and reading resumes at the stored
    offset and line. *)
Theorem process_file_reset_or_resume (db : UsageDb) (path : string)
  (size mtime : Z) (row : SourceFileRow) :
  load_source_file_row db path = Some row ->
  let (db', cur) := process_file_start db path size mtime in
  if (size <? row.(last_offset))
     || ((size =? row.(UsageSync.size_bytes))
         && negb (mtime =? row.(UsageSync.modified_unix_ms)))
  then db'.(usage_events)
       = filter (fun e => negb (String.eqb e.(ev_source_path) path)) db.(usage_events)
       /\ Forall (fun e => e.(ev_source_path) <> path) db'.(usage_events)
       /\ cur.(start_offset) = 0 /\ cur.(start_line) = 0
  else db'.(usage_events) = db.(usage_events)
       /\ cur.(start_offset) = row.(last_offset)
       /\ cur.(start_line) = row.(last_line).
Proof.
  intros Hrow. unfold process_file_start. rewrite Hrow.
  destruct ((size <? last_offset row)
            || ((size =? UsageSync.size_bytes row)
                && negb (mtime =? UsageSync.modified_unix_ms row))).
  - simpl. split; [reflexivity|]. split; [|split; reflexivity].
    apply Forall_forall. intros e He.
    apply filter_In in He. destruct He as [_ He].
    apply negb_true_iff, String.eqb_neq in He. exact He.
  - simpl. auto.
Qed.

Lemma process_file_reset_or_resume_witness :
  let row := {| sf_source_path := "a.jsonl"; size_bytes := 100; modified_unix_ms := 5;
                last_offset := 100; last_line := 3; parse_error_count := 0 |} in
  let db := {| usage_events := [{| event_uid := "ln:a.jsonl:1"; ev_source_path := "a.jsonl";
                                   source_line := 1 |};
                                {| event_uid := "ln:b.jsonl:1"; ev_source_path := "b.jsonl";
                                   source_line := 1 |}];
               source_files := [row] |} in
  load_source_file_row db "a.jsonl" = Some row
  /\ (let (db', cur) := process_file_start db "a.jsonl" 100 9 in
      map event_uid db'.(usage_events) = ["ln:b.jsonl:1"] /\ cur.(start_offset) = 0).
Proof.
  intros row db.
  assert (H : load_source_file_row db "a.jsonl" = Some row) by reflexivity.
  split; [exact H|].
  pose proof (process_file_reset_or_resume db "a.jsonl" 100 9 row H) as P.
  destruct (process_file_start db "a.jsonl" 100 9) as [db' cur].
  simpl in P. destruct P as [E [_ [O _]]]. rewrite E. split; [reflexivity | exact O].
Defined.

End UsageSyncProps.

Module UsageQueryProps.
Import UsageQuery Samples.
Local Open Scope Z_scope.

Lemma in_insert_by le (x y : ProjectUsage) l : In x (insert_by le y l) -> x = y \/ In x l.
Proof.
  induction l as [|z r IH]; simpl; [intuition|].
  destruct (le y z); simpl; [intuition|].
  intros [H|H]; [auto|]. apply IH in H. intuition.
Qed.

Lemma in_sort_by le (x : ProjectUsage) l : In x (sort_by le l) -> In x l.
Proof.
  induction l as [|y r IH]; simpl; [auto|].
  intros H. apply in_insert_by in H. intuition.
Qed.

Lemma in_firstn_skipn {A} (x : A) n m l : In x (firstn n (skipn m l)) -> In x l.
Proof.
  intros H.
  assert (H1 : In x (skipn m l)).
  { rewrite <- (firstn_skipn n (skipn m l)). apply in_or_app. auto. }
  rewrite <- (firstn_skipn m l). apply in_or_app. auto.
Qed.

Lemma in_dedup_keys k l : In k (dedup_keys l) -> In k l.
Proof.
  induction l as [|a r IH]; simpl; [auto|].
  intros [H|H]; [auto|]. apply filter_In in H. right. apply IH. apply H.
Qed.

Lemma length_filter_filter (p q : EventRow -> bool) (l : list EventRow) :
  List.length (filter p (filter q l)) = List.length (filter (fun r => q r && p r) l).
Proof.
  induction l as [|a r IH]; simpl; [reflexivity|].
  destruct (q a); simpl; [destruct (p a); simpl; auto | exact IH].
Qed.

(** C10: every element returned by [query_session_stats] stems from a
    (project_path, session_id) group of the date-filtered events: its
    [project_name] is the group's session_id and its [session_count] is the
    number of events in the group (COUNT(STAR)), not a count of sessions. *)
Theorem session_stats_fields (rows : list EventRow)
  (since_date until_date order : option string) (limit offset : option Z)
  (pu : ProjectUsage) :
  In pu (query_session_stats rows since_date until_date order limit offset) ->
  exists r, In r rows /\ date_filter since_date until_date r = true
    /\ pu.(project_path) = r.(q_project_path)
    /\ pu.(project_name) = r.(q_session_id)
    /\ pu.(session_count)
       = Z.of_nat (List.length
           (filter (fun r' => date_filter since_date until_date r'
                              && key_eqb (key r') (key r)) rows)).
Proof.
  unfold query_session_stats. intros H.
  apply in_firstn_skipn, in_sort_by in H.
  apply in_map_iff in H. destruct H as [g [<- Hg]].
  unfold group_by in Hg. apply in_map_iff in Hg. destruct Hg as [k [<- Hk]].
  apply in_dedup_keys, in_map_iff in Hk. destruct Hk as [r [<- Hr]].
  apply filter_In in Hr. destruct Hr as [Hr Hd].
  exists r. split; [exact Hr|]. split; [exact Hd|].
  unfold group_row, key. simpl. split; [reflexivity|]. split; [reflexivity|].
  rewrite length_filter_filter. lia.
Qed.


Example session_stats_sample :
  map (fun pu => (pu.(project_name), pu.(session_count), pu.(total_tokens)))
      (query_session_stats sample_rows None None None None None)
  = [("s2", 1, 7); ("s1", 2, 17)].
Proof. vm_compute. reflexivity. Qed.

Lemma session_stats_fields_witness :
  let pu := {| project_path := "/p"; project_name := "s1"; total_cost := 2;
               total_tokens := 17; session_count := 2; last_used := "t2" |} in
  In pu (query_session_stats sample_rows None None None None None)
  /\ exists r, In r sample_rows /\ pu.(project_name) = r.(q_session_id)
       /\ pu.(session_count)
          = Z.of_nat (List.length
              (filter (fun r' => date_filter None None r' && key_eqb (key r') (key r))
                 sample_rows)).
Proof.
  intros pu.
  assert (H : In pu (query_session_stats sample_rows None None None None None))
    by (vm_compute; right; left; reflexivity).
  split; [exact H|].
  destruct (session_stats_fields sample_rows None None None None None pu H)
    as [r [Hr [_ [_ [Hn Hc]]]]].
  exists r. auto.
Defined.

End UsageQueryProps.

Module CodexTransformProps.
Import CodexTransform Samples.
Local Open Scope Z_scope.

Lemma wrap_as_text_shape (t : string) : assistant_shape (wrap_as_text t).
Proof. split; [reflexivity|]. eexists _, t. repeat split. Qed.

Lemma result_envelope_shape (a b : Z) :
  0 <= a -> 0 <= b -> result_shape (result_envelope a b).
Proof. intros. split; [reflexivity|]. exists a, b. repeat split; assumption. Qed.

Lemma usage_tokens_nonneg (u : option Value) (k : string) : 0 <= usage_tokens u k.
Proof.
  unfold usage_tokens, unwrap_or, bind.
  destruct u as [u|]; [|lia]. destruct (get k u) as [v|]; [|lia].
  destruct v; simpl; try lia. destruct (Z.leb_spec 0 n); lia.
Qed.

Ltac open_branches H :=
  repeat match type of H with
  | Some _ = Some _ => injection H as <-
  | None = Some _ => discriminate H
  | context [if ?b then _ else _] => destruct b
  | context [match ?o with Some _ => _ | None => _ end] => destruct o
  | context [match ?l with [] => _ | _ :: _ => _ end] => destruct l
  end.

Lemma transform_item_completed_shape (event v : Value) :
  transform_item_completed event = Some v -> assistant_shape v.
Proof.
  unfold transform_item_completed, bind. intros H.
  destruct (get "item" event) as [item|]; [|discriminate].
  cbv zeta in H. open_branches H; apply wrap_as_text_shape.
Qed.

(** C9: every [Some] output of [transform_codex_line] is (the value
    serialised from) either an assistant message whose [message.content] is
    a one-element array of a [text] item with a string [text], or a [result]
    whose [usage] holds numeric [input_tokens] and [output_tokens]. This holds
    whatever [serde_json::from_str] returns on the trimmed line. *)
Theorem transform_codex_line_shapes (from_str : string -> option Value)
  (line : string) (v : Value) :
  transform_codex_line from_str line = Some v ->
  assistant_shape v \/ result_shape v.
Proof.
  unfold transform_codex_line. intros H. cbv zeta in H.
  destruct (Str.is_empty (Str.trim line)); [discriminate|].
  destruct (from_str (Str.trim line)) as [event|];
    [|injection H as <-; left; apply wrap_as_text_shape].
  destruct (String.eqb _ "thread.started" || _); [discriminate|].
  destruct (String.eqb _ "item.completed").
  { left. eapply transform_item_completed_shape. exact H. }
  open_branches H;
    first [ left; apply wrap_as_text_shape
          | right; apply result_envelope_shape; apply usage_tokens_nonneg ].
Qed.


Example codex_scenario :
  map (transform_codex_line scenario_event) ["thread"; "reasoning"; "message"; " turn "; "plain text"]
  = [None; Some (wrap_as_text "[thinking] ok"); Some (wrap_as_text "Hi.");
     Some (result_envelope 10 3); Some (wrap_as_text "plain text")].
Proof. vm_compute. reflexivity. Qed.

Lemma transform_codex_line_shapes_witness :
  transform_codex_line scenario_event "turn" = Some (result_envelope 10 3)
  /\ (assistant_shape (result_envelope 10 3) \/ result_shape (result_envelope 10 3)).
Proof.
  assert (H : transform_codex_line scenario_event "turn" = Some (result_envelope 10 3))
    by (vm_compute; reflexivity).
  split; [exact H|].
  exact (transform_codex_line_shapes scenario_event "turn" (result_envelope 10 3) H).
Defined.

End CodexTransformProps.

(** * Properties of the code beyond the specification *)

Module StrFacts.
Import Str StrSearch.

Lemma las_app (s1 s2 : string) :
  list_ascii_of_string (s1 ++ s2) = list_ascii_of_string s1 ++ list_ascii_of_string s2.
Proof. induction s1 as [|a s1 IH]; simpl; [reflexivity | now rewrite IH]. Qed.

Lemma prefixb_mism (p l r : list ascii) : mism p l = true -> prefixb p (l ++ r) = false.
Proof.
  revert l; induction p as [|a p IH]; intros [|b l] H; simpl in *; try discriminate.
  apply orb_true_iff in H as [H|H].
  - apply negb_true_iff in H; now rewrite H.
  - rewrite (IH l H); apply andb_false_r.
Qed.

Lemma containsb_skip (l r p : list ascii) :
  sfx_mism l p = true -> containsb_l (l ++ r) p = containsb_l r p.
Proof.
  induction l as [|a l IH]; simpl; intros H; [reflexivity|].
  apply andb_true_iff in H as [H1 H2].
  pose proof (prefixb_mism p (a :: l) r H1) as Hp; simpl in Hp.
  rewrite Hp, (IH H2); reflexivity.
Qed.

Lemma contains_lower (s p : string) :
  contains (to_ascii_lowercase s) p
  = containsb_l (map lower_ascii (list_ascii_of_string s)) (list_ascii_of_string p).
Proof. unfold contains, to_ascii_lowercase; now rewrite list_ascii_of_string_of_list_ascii. Qed.

Lemma drop_ws_suffix (l : list ascii) : exists k, l = k ++ drop_ws l.
Proof.
  induction l as [|a l [k Hk]]; simpl; [now exists []|].
  destruct (is_ws a); [exists (a :: k); simpl; now rewrite <- Hk | now exists []].
Qed.

Lemma drop_ws_idem (l : list ascii) : drop_ws (drop_ws l) = drop_ws l.
Proof.
  induction l as [|a l IH]; simpl; [reflexivity|].
  destruct (is_ws a) eqn:E; [exact IH | simpl; now rewrite E].
Qed.

Lemma drop_ws_fixed_prefix (m r : list ascii) :
  drop_ws (m ++ r) = m ++ r -> drop_ws m = m.
Proof.
  destruct m as [|a m]; simpl; [reflexivity|].
  destruct (is_ws a); [|reflexivity].
  intros H; exfalso; destruct (drop_ws_suffix (m ++ r)) as [k Hk].
  assert (length (a :: m ++ r) <= length (m ++ r))%nat.
  { rewrite <- H at 1; rewrite Hk at 2; rewrite length_app; lia. }
  simpl in H0; lia.
Qed.

Lemma trim_list_idem (l : list ascii) :
  let t := rev (drop_ws (rev (drop_ws l))) in rev (drop_ws (rev (drop_ws t))) = t.
Proof.
  intros t.
  assert (Ht : drop_ws t = t).
  { destruct (drop_ws_suffix (rev (drop_ws l))) as [k Hk].
    apply (drop_ws_fixed_prefix t (rev k)).
    unfold t; rewrite <- rev_app_distr, <- Hk, rev_involutive; apply drop_ws_idem. }
  rewrite Ht; unfold t; rewrite rev_involutive, drop_ws_idem; reflexivity.
Qed.

Lemma trim_idem (s : string) : trim (trim s) = trim s.
Proof.
  unfold trim; rewrite list_ascii_of_string_of_list_ascii.
  f_equal; apply trim_list_idem.
Qed.

Lemma find_map_inv {A} (p : A -> bool) (f : A -> A) (l : list A) :
  (forall x, p (f x) = p x) -> find p (map f l) = option_map f (find p l).
Proof.
  intros Hf; induction l as [|x l IH]; simpl; [reflexivity|].
  rewrite Hf; destruct (p x); [reflexivity | exact IH].
Qed.

Lemma find_app {A} (p : A -> bool) (l1 l2 : list A) :
  find p (l1 ++ l2) = match find p l1 with Some x => Some x | None => find p l2 end.
Proof. induction l1 as [|x l1 IH]; simpl; [reflexivity|]; now destruct (p x). Qed.

End StrFacts.

Module WebSessionProps.
Import Str StrSearch StrFacts WebSession.


Lemma uint_digits_numeric (u : Decimal.uint) :
  forallb numeric_char (list_ascii_of_string (Fmt.uint_digits u)) = true.
Proof. induction u; simpl; auto. Qed.

Lemma z_to_string_numeric (z : Z) :
  forallb numeric_char (list_ascii_of_string (Fmt.z_to_string z)) = true.
Proof.
  unfold Fmt.z_to_string; destruct (Z.to_int z); simpl; apply uint_digits_numeric.
Qed.

Lemma numeric_sfx_mism (l p : list ascii) (a : ascii) :
  forallb numeric_char l = true -> numeric_char a = false ->
  sfx_mism (map lower_ascii l) (a :: p) = true.
Proof.
  intros H Ha; induction l as [|b l IH]; simpl in *; [reflexivity|].
  apply andb_true_iff in H as [Hb Hl]; rewrite (IH Hl), andb_true_r.
  assert (lower_ascii b = b) as ->.
  { unfold numeric_char in Hb; simpl in Hb.
    repeat (apply orb_true_iff in Hb as [Hb|Hb]; [apply Ascii.eqb_eq in Hb; subst; reflexivity|]).
    discriminate. }
  destruct (Ascii.eqb a b) eqn:E; [|reflexivity].
  apply Ascii.eqb_eq in E; subst; rewrite Hb in Ha; discriminate.
Qed.

Lemma failed_msg_no_pattern (c : Z) (p : string) (a : ascii) (p' : list ascii) :
  list_ascii_of_string p = a :: p' ->
  numeric_char a = false ->
  sfx_mism (map lower_ascii (list_ascii_of_string
     "Provider session execution failed with exit code: Some(")) (a :: p') = true ->
  containsb_l (map lower_ascii (list_ascii_of_string ")")) (a :: p') = false ->
  contains (to_ascii_lowercase
     ("Provider session execution failed with exit code: " ++ debug_option_i32 (Some c))) p
  = false.
Proof.
  intros Hp Ha H1 H2.
  rewrite contains_lower, Hp; unfold debug_option_i32.
  rewrite !las_app, !map_app, !app_assoc.
  rewrite <- (app_assoc _ (map lower_ascii (list_ascii_of_string (Fmt.z_to_string c)))).
  rewrite <- map_app, <- las_app.
  rewrite containsb_skip by exact H1.
  rewrite containsb_skip by (apply numeric_sfx_mism; [apply z_to_string_numeric | exact Ha]).
  exact H2.
Qed.

(** The status the web server records for a provider session
    ([completion_status_for_result] of the command's result): a cancelled
    process, or one that exited with code 130 or 143, is [Cancelled]; a
    successful exit is [Success]; any other exit code, or a death by signal,
    is [Error]. *)
Theorem provider_session_status (o : ProviderProcessOutcome) :
  completion_status_for_result (session_command_result (Ok o)) =
  match o with
  | OutcomeCancelled _ => Cancelled
  | OutcomeExited st =>
      if Supervisor.success st then Success
      else match Supervisor.code st with
           | Some c => if ((c =? 130) || (c =? 143))%Z then Cancelled else Error
           | None => Error
           end
  end.
Proof.
  destruct o as [st|st]; [|reflexivity].
  simpl session_command_result; unfold map_exit_status_to_result.
  destruct (Supervisor.success st) eqn:Hs; [reflexivity|].
  destruct st as [c|]; simpl Supervisor.code; [|reflexivity].
  destruct ((c =? 130) || (c =? 143))%Z eqn:Hc.
  - apply orb_true_iff in Hc as [Hc|Hc]; apply Z.eqb_eq in Hc; subst; reflexivity.
  - unfold completion_status_for_result.
    rewrite (failed_msg_no_pattern c "cancelled" "c"%char (list_ascii_of_string "ancelled")) by reflexivity.
    rewrite (failed_msg_no_pattern c "canceled" "c"%char (list_ascii_of_string "anceled")) by reflexivity.
    rewrite (failed_msg_no_pattern c "interrupted" "i"%char (list_ascii_of_string "nterrupted")) by reflexivity.
    now rewrite Hc.
Qed.


Lemma alias_get_insert (m : list (string * string)) (k v k' : string) :
  alias_get (alias_insert k v m) k' = if String.eqb k k' then Some v else alias_get m k'.
Proof.
  unfold alias_get, alias_insert; simpl.
  destruct (String.eqb k k') eqn:E; [reflexivity|].
  induction m as [|[a b] m IH]; simpl; [reflexivity|].
  destruct (String.eqb a k) eqn:Eak; simpl.
  - apply String.eqb_eq in Eak; subst.
    destruct (String.eqb k k'); [discriminate|]; exact IH.
  - destruct (String.eqb a k'); [reflexivity | exact IH].
Qed.

(** Registering a provider session alias maps the trimmed provider id to
    the websocket session, leaves every other alias unchanged, and does
    nothing when the trimmed id is empty. *)
Theorem register_alias_lookup (st : AppState) (pid ws k : string) :
  alias_get (register_provider_session_alias st pid ws).(session_aliases) k =
  if negb (is_empty (trim pid)) && String.eqb (trim pid) k then Some ws
  else alias_get st.(session_aliases) k.
Proof.
  unfold register_provider_session_alias.
  destruct (is_empty (trim pid)); simpl; [reflexivity|].
  apply alias_get_insert.
Qed.

(** After a provider's stdout line that is a system/init message carrying a
    session id, that id resolves to the websocket session (or to itself if
    it is an active websocket session), and looking up the provider session
    of the websocket session finds an alias pointing back at it. *)
Theorem stdout_alias_round_trip (from_str : string -> option CodexTransform.Value)
  (st : AppState) (ws line pid : string) :
  extract_provider_session_id_from_stream_line from_str line = Some pid ->
  let st' := on_stdout_line from_str st ws line in
  resolve_websocket_session_id st' pid =
    Some (if existsb (String.eqb pid) st.(active_sessions) then pid else ws)
  /\ exists p, resolve_provider_session_id_for_websocket st' ws = Some p
               /\ alias_get st'.(session_aliases) p = Some ws.
Proof.
  intros H st'.
  assert (Hp : trim pid = pid /\ is_empty pid = false).
  { unfold extract_provider_session_id_from_stream_line in H.
    destruct (from_str line) as [v|]; simpl in H; [|discriminate].
    destruct (CodexTransform.get_str "type" v); simpl in H; [|discriminate].
    destruct (negb _); [discriminate|].
    destruct (CodexTransform.get_str "subtype" v); simpl in H; [|discriminate].
    destruct (negb _); [discriminate|].
    destruct (CodexTransform.get_str "session_id" v); [|discriminate].
    destruct (is_empty (trim s1)) eqn:E; [discriminate|].
    injection H as <-; split; [apply trim_idem | exact E]. }
  destruct Hp as [Ht He].
  assert (Hst : st' = {| active_sessions := st.(active_sessions);
                         active_cancellations := st.(active_cancellations);
                         session_aliases := alias_insert pid ws st.(session_aliases) |}).
  { unfold st', on_stdout_line; rewrite H; unfold register_provider_session_alias.
    now rewrite Ht, He. }
  rewrite Hst; split.
  - unfold resolve_websocket_session_id; simpl; rewrite Ht, He.
    destruct (existsb _ _); [reflexivity|].
    rewrite alias_get_insert, String.eqb_refl; reflexivity.
  - exists pid; unfold resolve_provider_session_id_for_websocket; simpl.
    rewrite String.eqb_refl, alias_get_insert, String.eqb_refl; split; reflexivity.
Qed.

Lemma stdout_alias_round_trip_witness :
  let from_str := fun _ : string => Some (CodexTransform.VObj
    [("type", CodexTransform.VStr "system"); ("subtype", CodexTransform.VStr "init");
     ("session_id", CodexTransform.VStr " abc ")]) in
  extract_provider_session_id_from_stream_line from_str "line" = Some "abc" /\
  (let st' := on_stdout_line from_str {| active_sessions := []; active_cancellations := []; session_aliases := [] |}
                "ws1" "line" in
   resolve_websocket_session_id st' "abc" = Some "ws1"
   /\ exists p, resolve_provider_session_id_for_websocket st' "ws1" = Some p
                /\ alias_get st'.(session_aliases) p = Some "ws1").
Proof.
  intros from_str; split; [reflexivity|].
  apply (stdout_alias_round_trip from_str {| active_sessions := []; active_cancellations := []; session_aliases := [] |}
           "ws1" "line" "abc"); reflexivity.
Defined.

End WebSessionProps.

Module MobileAuthProps.
Import Str StrFacts MobileAuth.

Lemma digit_value_range (a : ascii) (d : Z) : digit_value a = Some d -> (0 <= d <= 9)%Z.
Proof.
  unfold digit_value; destruct (_ && _)%nat eqn:E; [|discriminate].
  intros H; injection H as <-; apply andb_true_iff in E as [E1 E2].
  apply Nat.leb_le in E1, E2; lia.
Qed.

Lemma digit_value_char (a : ascii) (d : Z) :
  digit_value a = Some d -> a = ascii_of_nat (Z.to_nat d + 48).
Proof.
  unfold digit_value; destruct (_ && _)%nat eqn:E; [|discriminate].
  intros H; injection H as <-; apply andb_true_iff in E as [E1 E2].
  apply Nat.leb_le in E1, E2.
  rewrite Nat2Z.id, Nat.sub_add by lia; symmetry; apply ascii_nat_embedding.
Qed.

Lemma parse_digits_mono (l : list ascii) (acc r : Z) :
  (0 <= acc)%Z -> parse_digits acc l = Some r -> (acc <= r)%Z.
Proof.
  revert acc; induction l as [|a l IH]; simpl; intros acc Hacc H.
  - injection H as <-; lia.
  - destruct (digit_value a) as [d|] eqn:Hd; [|discriminate].
    apply digit_value_range in Hd.
    destruct (acc * 10 + d <=? 255)%Z; [|discriminate].
    apply IH in H; lia.
Qed.

Lemma parse_digits_cons_ge (acc r : Z) (b : ascii) (l : list ascii) :
  (1 <= acc)%Z -> parse_digits acc (b :: l) = Some r -> (10 <= r)%Z.
Proof.
  intros Hacc H; simpl in H.
  destruct (digit_value b) as [e|] eqn:He; [|discriminate].
  pose proof (digit_value_range _ _ He).
  destruct (acc * 10 + e <=? 255)%Z; [|discriminate].
  apply parse_digits_mono in H; lia.
Qed.

Lemma parse_digits_zeros_one (k : nat) :
  parse_digits 0 (repeat "0"%char k ++ ["1"%char]) = Some 1%Z.
Proof. induction k as [|k IH]; [reflexivity | exact IH]. Qed.

Lemma parse_digits_one (l : list ascii) :
  parse_digits 0 l = Some 1%Z -> exists k, l = repeat "0"%char k ++ ["1"%char].
Proof.
  induction l as [|a l IH]; simpl; intros H; [discriminate|].
  destruct (digit_value a) as [d|] eqn:Hd; [|discriminate].
  pose proof (digit_value_range _ _ Hd) as Hr.
  destruct (_ <=? 255)%Z; [|discriminate].
  apply digit_value_char in Hd.
  assert (d = 0 \/ d = 1 \/ 2 <= d)%Z as [->|[->|Hge]] by lia.
  - destruct (IH H) as [k ->]; exists (S k); rewrite Hd; reflexivity.
  - destruct l as [|b l].
    + exists 0%nat; rewrite Hd; reflexivity.
    + apply parse_digits_cons_ge in H; lia.
  - apply parse_digits_mono in H; lia.
Qed.

Lemma visible_version (sign : string) (k : nat) :
  (sign = EmptyString \/ sign = "+") ->
  forallb is_visible_ascii
    (list_ascii_of_string (sign ++ string_of_list_ascii (repeat "0"%char k ++ ["1"%char])))
  = true.
Proof.
  intros Hs.
  assert (forallb is_visible_ascii (repeat "0"%char k ++ ["1"%char]) = true).
  { induction k; [reflexivity | exact IHk]. }
  destruct Hs as [->| ->]; simpl; rewrite list_ascii_of_string_of_list_ascii; exact H.
Qed.

Lemma parse_u8_version (v : string) :
  parse_u8 v = Some 1%Z <->
  exists sign k, (sign = EmptyString \/ sign = "+") /\
    v = (sign ++ string_of_list_ascii (repeat "0"%char k ++ ["1"%char]))%string.
Proof.
  split.
  - unfold parse_u8; intros H.
    rewrite <- (string_of_list_ascii_of_string v).
    destruct (list_ascii_of_string v) as [|a [|b r]] eqn:E; [discriminate| |].
    + destruct (Ascii.eqb a "+" || Ascii.eqb a "-")%char; [discriminate|].
      destruct (parse_digits_one [a] H) as [[|k] Hk].
      * exists EmptyString, 0%nat; split; [now left | now rewrite Hk].
      * destruct k; discriminate.
    + destruct (Ascii.eqb a "+"%char) eqn:Ea.
      * apply Ascii.eqb_eq in Ea; subst a.
        destruct (parse_digits_one _ H) as [k Hk].
        exists "+", k; split; [now right | rewrite <- Hk; reflexivity].
      * destruct (parse_digits_one _ H) as [k Hk].
        exists EmptyString, k; split; [now left | rewrite <- Hk; reflexivity].
  - intros (sign & k & Hs & ->); unfold parse_u8.
    destruct Hs as [->| ->]; simpl; rewrite list_ascii_of_string_of_list_ascii.
    + destruct k as [|[|k]]; [reflexivity | reflexivity |].
      exact (parse_digits_zeros_one (S (S k))).
    + destruct k as [|k]; [reflexivity|].
      exact (parse_digits_zeros_one (S k)).
Qed.

(** [verify_protocol_version] accepts a request exactly when its first
    version header is the number 1 written in decimal, with an optional
    leading [+] and any number of leading zeros. *)
Theorem verify_protocol_version_accepts (headers : HeaderMap) :
  verify_protocol_version headers = Ok tt <->
  exists sign k, (sign = EmptyString \/ sign = "+") /\
    header_get headers VERSION_HEADER =
      Some (sign ++ string_of_list_ascii (repeat "0"%char k ++ ["1"%char]))%string.
Proof.
  unfold verify_protocol_version; split.
  - destruct (header_get headers VERSION_HEADER) as [raw|]; [|discriminate].
    unfold to_str; destruct (forallb _ _); [|discriminate].
    destruct (parse_u8 raw) as [p|] eqn:Hp; [|discriminate].
    destruct (p =? PROTOCOL_VERSION)%Z eqn:E; [|discriminate]; intros _.
    apply Z.eqb_eq in E; subst p.
    apply parse_u8_version in Hp as (sign & k & Hs & ->); exists sign, k; auto.
  - intros (sign & k & Hs & ->); unfold to_str; rewrite visible_version by exact Hs.
    replace (parse_u8 _) with (Some 1%Z) by (symmetry; apply parse_u8_version; eauto).
    reflexivity.
Qed.


Lemma strip_prefix_l_app (p r : list ascii) : strip_prefix_l p (p ++ r) = Some r.
Proof. induction p as [|a p IH]; simpl; [reflexivity | now rewrite Ascii.eqb_refl]. Qed.

Lemma strip_prefix_l_some (p s r : list ascii) : strip_prefix_l p s = Some r -> s = p ++ r.
Proof.
  revert s; induction p as [|a p IH]; intros [|b s] H; simpl in *; try congruence.
  destruct (Ascii.eqb a b) eqn:E; [|discriminate].
  apply Ascii.eqb_eq in E; subst; f_equal; now apply IH.
Qed.

(** [extract_bearer_token] yields [t] exactly when the first
    [authorization] header is [Bearer ] (case-sensitive, one space) followed
    by visible ASCII text whose trimmed form is the non-empty [t]. *)
Theorem extract_bearer_token_iff (headers : HeaderMap) (t : string) :
  extract_bearer_token headers = Some t <->
  exists rest, header_get headers "authorization" = Some ("Bearer " ++ rest)%string
    /\ forallb is_visible_ascii (list_ascii_of_string rest) = true
    /\ trim rest = t /\ t <> EmptyString.
Proof.
  unfold extract_bearer_token, to_str, strip_prefix; split.
  - destruct (header_get headers "authorization") as [raw|];
      cbn [CodexTransform.bind option_map]; [|discriminate].
    destruct (forallb is_visible_ascii (list_ascii_of_string raw)) eqn:Hv;
      cbn [CodexTransform.bind option_map]; [|discriminate].
    destruct (strip_prefix_l (list_ascii_of_string "Bearer ") (list_ascii_of_string raw))
      as [r|] eqn:Hs; cbn [CodexTransform.bind option_map]; [|discriminate].
    destruct (is_empty (trim (string_of_list_ascii r))) eqn:He; [discriminate|].
    intros H; injection H as <-.
    apply strip_prefix_l_some in Hs.
    exists (string_of_list_ascii r); split; [|split; [|split]].
    + rewrite <- (string_of_list_ascii_of_string raw), Hs.
      f_equal; simpl; now rewrite string_of_list_ascii_of_string.
    + rewrite list_ascii_of_string_of_list_ascii.
      rewrite Hs, forallb_app in Hv; apply andb_true_iff in Hv; tauto.
    + reflexivity.
    + intros E; rewrite E in He; discriminate.
  - intros (rest & -> & Hv & <- & Hne); cbn [CodexTransform.bind option_map].
    rewrite las_app, forallb_app, Hv, andb_true_r.
    change (forallb is_visible_ascii (list_ascii_of_string "Bearer ")) with true.
    cbn [CodexTransform.bind option_map].
    rewrite las_app, strip_prefix_l_app; cbn [CodexTransform.bind option_map].
    rewrite string_of_list_ascii_of_string.
    unfold is_empty; destruct (String.eqb_spec (trim rest) EmptyString); [contradiction|].
    reflexivity.
Qed.

(** The websocket token: a bearer header wins over the query token and then
    the protocol version is required; without one the query token is used
    and the version header is never consulted; every rejection is a 400 or
    a 401. *)
Theorem select_ws_auth_token_precedence (headers : HeaderMap) (q q' : WsQuery) :
  match extract_bearer_token headers with
  | Some t =>
      select_ws_auth_token headers q = select_ws_auth_token headers q'
      /\ forall sel, select_ws_auth_token headers q = Ok sel ->
           sel = {| token := t; source := Header |} /\ verify_protocol_version headers = Ok tt
  | None => select_ws_auth_token headers q = select_ws_auth_token [] q
  end
  /\ forall e, select_ws_auth_token headers q = Err e ->
       fst e = BAD_REQUEST \/ fst e = UNAUTHORIZED.
Proof.
  unfold select_ws_auth_token, verify_version; split.
  - destruct (extract_bearer_token headers) as [t|] eqn:Ht; [split|].
    + reflexivity.
    + destruct (verify_protocol_version headers) as [[]|e]; intros sel H;
        [injection H as <-; auto | discriminate].
    + reflexivity.
  - destruct (extract_bearer_token headers).
    + destruct (verify_protocol_version headers); intros e H; [discriminate|].
      injection H as <-; now left.
    + destruct (option_map trim (query_token q)) as [x|]; [destruct (negb _)|];
        intros e H; try discriminate; injection H as <-; now right.
Qed.

(** [authenticate_request_with] calls its authenticator at most once: only
    for a request whose protocol version is accepted and that carries a
    bearer token, and then with that token. Every rejection it returns is a
    400 or a 401. *)
Theorem authenticate_request_with_calls {S : Type} (s : S) (headers : HeaderMap)
  (f : S -> string -> S * result AuthenticatedDevice string)
  (g : string -> result AuthenticatedDevice string) :
  fst (authenticate_request_with [] headers (fun log t => (log ++ [t], g t))) =
    match verify_protocol_version headers, extract_bearer_token headers with
    | Ok _, Some t => [t]
    | _, _ => []
    end
  /\ forall e, snd (authenticate_request_with s headers f) = Err e ->
       fst e = BAD_REQUEST \/ fst e = UNAUTHORIZED.
Proof.
  unfold authenticate_request_with, verify_version; split.
  - destruct (verify_protocol_version headers); [|reflexivity].
    destruct (extract_bearer_token headers); reflexivity.
  - destruct (verify_protocol_version headers);
      [|intros e H; injection H as <-; now left].
    destruct (extract_bearer_token headers) as [t|];
      [|intros e H; injection H as <-; now right].
    destruct (f s t) as [s' [d|err]]; simpl; intros e H; [discriminate|].
    injection H as <-; now right.
Qed.

Ltac early H Hr :=
  let Hx := fresh in let He := fresh in
  injection H as _ <-;
  destruct Hr as [[? Hx]|[? [Hx He]]];
  [discriminate Hx | injection Hx as <-; discriminate He].

Section WithDb.
Variable hash_token : string -> string.
Variable parse_from_rfc3339 : string -> result Z string.
Variable unique_violation : string.

(** Revoking through [device_revoke_handler]: once it answers [Ok true],
    the token of the target device (the first row holding its hash) is
    rejected with "Device has been revoked", and that rejection leaves the
    table untouched. The handler does not check that the target exists or
    differs from the caller. *)
Theorem revoke_then_authenticate (db db' : MobileDb) (headers : HeaderMap)
  (enabled : bool) (now now' target tok : string) (d : DeviceRow) :
  device_revoke_handler hash_token db headers enabled now target = (db', Ok true) ->
  find (fun r => String.eqb r.(d_token_hash) (hash_token tok)) db.(devices) = Some d ->
  d.(d_id) = target ->
  authenticate_token hash_token db' now' tok = (db', Err "Device has been revoked").
Proof.
  intros H Hf Hid; unfold device_revoke_handler in H.
  destruct (require_enabled enabled); [|discriminate].
  unfold authenticate_request_with in H.
  destruct (verify_version headers); [|discriminate].
  destruct (extract_bearer_token headers) as [t|]; [|discriminate].
  unfold authenticate_token at 1 in H.
  destruct (find _ db.(devices)) as [row|]; [|discriminate].
  destruct (negb (d_revoked row =? 0)%Z); [discriminate|].
  simpl in H; injection H as <-.
  unfold authenticate_token, revoke_device; simpl.
  rewrite find_map_inv by (intros x; destruct (String.eqb (d_id x) target); reflexivity).
  rewrite find_map_inv by (intros x; unfold set_last_seen;
                           destruct (String.eqb (d_id x) (d_id row)); reflexivity).
  rewrite Hf; simpl.
  unfold set_last_seen; destruct (String.eqb (d_id d) (d_id row)); simpl;
    rewrite Hid, String.eqb_refl; reflexivity.
Qed.


Lemma find_none_of_existsb (id h : string) (l : list DeviceRow) :
  existsb (fun d => String.eqb d.(d_id) id || String.eqb d.(d_token_hash) h) l = false ->
  find (fun r => String.eqb r.(d_token_hash) h) l = None.
Proof.
  induction l as [|d l IH]; simpl; [reflexivity|].
  intros H; apply orb_false_iff in H as [H1 H2]; apply orb_false_iff in H1 as [_ H1].
  rewrite H1; exact (IH H2).
Qed.

(** A successful pairing returns the generated device id and token, and
    that token then authenticates as the new device under the requested
    name. *)
Theorem pair_then_authenticate (db db1 : MobileDb) (headers : HeaderMap) (enabled : bool)
  (now : Z) (host : string) (port : Z) (code name new_id raw now' : string)
  (resp : PairClaimResponse) :
  pair_claim_handler hash_token parse_from_rfc3339 unique_violation db headers enabled now
    host port code name new_id raw = (db1, Ok resp) ->
  resp.(resp_device_id) = new_id /\ resp.(resp_token) = raw /\
  exists db2, authenticate_token hash_token db1 now' resp.(resp_token) =
    (db2, Ok {| device_id := new_id; device_name := name |}).
Proof.
  unfold pair_claim_handler; intros H.
  destruct (verify_version headers); [|discriminate].
  destruct (require_enabled enabled); [|discriminate].
  destruct (find _ db.(pairing_codes)) as [row|]; [|discriminate].
  destruct (negb (p_claimed row =? 0)%Z); [discriminate|].
  destruct (parse_expiration parse_from_rfc3339 (p_expires_at row)); [|discriminate].
  destruct (z <=? now)%Z; [discriminate|].
  unfold create_device_token in H; simpl in H.
  destruct (existsb _ db.(devices)) eqn:Hx; [discriminate|].
  injection H as <- <-; simpl; split; [reflexivity | split; [reflexivity|]].
  unfold authenticate_token; simpl.
  rewrite find_app, (find_none_of_existsb new_id _ _ Hx); simpl.
  rewrite String.eqb_refl; simpl.
  eexists; reflexivity.
Qed.

(** A pairing code is consumed as soon as a claim passes the expiry check:
    after a claim that succeeded, or that failed only while creating the
    device (a 500), every later claim of the same code with an accepted
    protocol version and sync enabled is refused as already used. *)
Theorem pairing_code_single_use (db db1 : MobileDb) (headers headers2 : HeaderMap)
  (enabled : bool) (now now2 : Z) (host host2 : string) (port port2 : Z)
  (code name name2 new_id new_id2 raw raw2 : string)
  (r : result PairClaimResponse ApiError) :
  pair_claim_handler hash_token parse_from_rfc3339 unique_violation db headers enabled now
    host port code name new_id raw = (db1, r) ->
  (exists resp, r = Ok resp) \/ (exists e, r = Err e /\ fst e = INTERNAL_SERVER_ERROR) ->
  verify_protocol_version headers2 = Ok tt ->
  snd (pair_claim_handler hash_token parse_from_rfc3339 unique_violation db1 headers2 true
         now2 host2 port2 code name2 new_id2 raw2)
  = Err (api_error UNAUTHORIZED "Pairing code already used").
Proof.
  intros H Hr Hv.
  assert (Hdb : exists devs, db1 = {| devices := devs;
            pairing_codes := map (claim_code code) db.(pairing_codes) |} /\
          exists row, find (fun p => String.eqb p.(p_code) code) db.(pairing_codes) = Some row).
  { unfold pair_claim_handler, verify_version, require_enabled in H.
    destruct (verify_protocol_version headers); [|early H Hr].
    destruct enabled; [|early H Hr].
    destruct (find _ db.(pairing_codes)) as [row|] eqn:Hf; [|early H Hr].
    destruct (negb (p_claimed row =? 0)%Z); [early H Hr|].
    destruct (parse_expiration parse_from_rfc3339 (p_expires_at row)); [|early H Hr].
    destruct (z <=? now)%Z; [early H Hr|].
    unfold create_device_token in H; simpl in H.
    destruct (existsb _ _).
    - injection H as <- _; eexists; split; [reflexivity | eauto].
    - injection H as <- _; eexists; split; [reflexivity | eauto]. }
  destruct Hdb as (devs & -> & row & Hrow).
  unfold pair_claim_handler, verify_version; rewrite Hv; simpl.
  rewrite find_map_inv by (intros p; unfold claim_code;
                           destruct (String.eqb (p_code p) code) eqn:E; simpl;
                           rewrite ?E; reflexivity).
  rewrite Hrow; simpl; unfold claim_code.
  pose proof (find_some _ _ Hrow) as [_ Hc]; simpl in Hc; rewrite Hc.
  reflexivity.
Qed.

End WithDb.

Lemma revoke_then_authenticate_witness :
  let db := {| devices := [{| d_id := "d1"; d_device_name := "phone"; d_token_hash := "tok1";
                             d_revoked := 0; d_last_seen_at := None |}];
               pairing_codes := [] |} in
  let headers := [("x-codeinterfacex-sync-version", "1"); ("authorization", "Bearer tok1")] in
  let db' := fst (device_revoke_handler (fun t => t) db headers true "t0" "d1") in
  device_revoke_handler (fun t => t) db headers true "t0" "d1" = (db', Ok true) /\
  authenticate_token (fun t => t) db' "t1" "tok1" = (db', Err "Device has been revoked").
Proof.
  intros db headers db'; split; [reflexivity|].
  apply (revoke_then_authenticate (fun t => t) db db' headers true "t0" "t1" "d1" "tok1"
           {| d_id := "d1"; d_device_name := "phone"; d_token_hash := "tok1";
              d_revoked := 0; d_last_seen_at := None |}); reflexivity.
Defined.

Lemma pair_then_authenticate_witness :
  let db := {| devices := [];
               pairing_codes := [{| p_code := "ABC123"; p_expires_at := "later";
                                    p_claimed := 0 |}] |} in
  let headers := [("x-codeinterfacex-sync-version", "1")] in
  let resp := {| version := 1; resp_device_id := "d2"; resp_token := "tok2";
                 base_url := "http://host:8080/mobile/v1";
                 ws_url := "ws://host:8080/mobile/v1/ws" |} in
  let call := pair_claim_handler (fun t => t) (fun _ => Ok 100%Z) "UNIQUE" db headers true
                50 "host" 8080 "ABC123" "tablet" "d2" "tok2" in
  call = (fst call, Ok resp) /\
  (resp.(resp_device_id) = "d2" /\ resp.(resp_token) = "tok2" /\
   exists db2, authenticate_token (fun t => t) (fst call) "t1" resp.(resp_token) =
     (db2, Ok {| device_id := "d2"; device_name := "tablet" |})).
Proof.
  intros db headers resp call; split; [reflexivity|].
  apply (pair_then_authenticate (fun t => t) (fun _ => Ok 100%Z) "UNIQUE" db (fst call)
           headers true 50 "host" 8080 "ABC123" "tablet" "d2" "tok2" "t1" resp).
  reflexivity.
Defined.

Lemma pairing_code_single_use_witness :
  let db := {| devices := [];
               pairing_codes := [{| p_code := "ABC123"; p_expires_at := "later";
                                    p_claimed := 0 |}] |} in
  let headers := [("x-codeinterfacex-sync-version", "1")] in
  let call := pair_claim_handler (fun t => t) (fun _ => Ok 100%Z) "UNIQUE" db headers true
                50 "host" 8080 "ABC123" "tablet" "d2" "tok2" in
  (exists resp, snd call = Ok resp) /\
  snd (pair_claim_handler (fun t => t) (fun _ => Ok 100%Z) "UNIQUE" (fst call) headers true
         60 "host" 8080 "ABC123" "laptop" "d3" "tok3")
  = Err (api_error UNAUTHORIZED "Pairing code already used").
Proof.
  intros db headers call; split; [eexists; reflexivity|].
  apply (pairing_code_single_use (fun t => t) (fun _ => Ok 100%Z) "UNIQUE" db (fst call)
           headers headers true 50 60 "host" "host" 8080 8080 "ABC123" "tablet" "laptop"
           "d2" "d3" "tok2" "tok3" (snd call)).
  - reflexivity.
  - left; eexists; reflexivity.
  - reflexivity.
Defined.

End MobileAuthProps.

Module UsagePathProps.
Import Str StrFacts UsageIndex.

Ltac not_in := let H := fresh in
  intros H; repeat (destruct H as [H|H]; [discriminate H|]); exact H.
Ltac plain_seg := unfold plain_segment; simpl; repeat split; try discriminate; not_in.

Lemma split_slash_no_slash (l : list ascii) :
  ~ In slash l -> split_slash l = [l].
Proof.
  induction l as [|a l IH]; simpl; intros H; [reflexivity|].
  destruct (Ascii.eqb a slash) eqn:E.
  - apply Ascii.eqb_eq in E; subst; exfalso; apply H; now left.
  - rewrite IH by tauto; reflexivity.
Qed.

Lemma split_slash_app (l1 l2 : list ascii) :
  split_slash (l1 ++ slash :: l2) = split_slash l1 ++ split_slash l2.
Proof.
  induction l1 as [|a l1 IH]; simpl.
  - reflexivity.
  - destruct (Ascii.eqb a slash); [rewrite IH; reflexivity|].
    rewrite IH; destruct (split_slash l1) as [|x xs] eqn:E.
    + destruct l1; simpl in E; [discriminate|].
      destruct (Ascii.eqb a0 slash); [discriminate|]; destruct (split_slash l1); discriminate.
    + reflexivity.
Qed.

Lemma las_slash (x : string) :
  list_ascii_of_string ("/" ++ x) = slash :: list_ascii_of_string x.
Proof. reflexivity. Qed.

Lemma las_join_split (segs : list string) :
  segs <> [] -> Forall plain_segment segs ->
  split_slash (list_ascii_of_string (join "/" segs)) = map list_ascii_of_string segs.
Proof.
  induction segs as [|s segs IH]; intros Hne Hp; [contradiction|].
  inversion Hp as [|? ? [_ [_ [_ Hs]]] Hps]; subst.
  destruct segs as [|s' segs'].
  - simpl; apply split_slash_no_slash; exact Hs.
  - change (join "/" (s :: s' :: segs')) with (s ++ "/" ++ join "/" (s' :: segs'))%string.
    rewrite las_app, las_slash.
    rewrite split_slash_app, split_slash_no_slash by exact Hs.
    rewrite IH by (discriminate || exact Hps); reflexivity.
Qed.

Lemma piece_general (p : list ascii) :
  p <> [] -> p <> ["."%char] -> p <> ["."%char; "."%char] ->
  piece_component p = Some (Normal (string_of_list_ascii p)).
Proof.
  intros H1 H2 H3; unfold piece_component.
  destruct p as [|a [|b [|c r]]]; [contradiction| | |].
  - destruct (ascii_dec a "."%char) as [->|Ha]; [contradiction|].
    destruct a as [[] [] [] [] [] [] [] []]; reflexivity || contradiction.
  - destruct (ascii_dec a "."%char) as [->|Ha].
    + destruct (ascii_dec b "."%char) as [->|Hb]; [contradiction|].
      destruct b as [[] [] [] [] [] [] [] []]; reflexivity || contradiction.
    + destruct a as [[] [] [] [] [] [] [] []]; reflexivity || contradiction.
  - destruct a as [[] [] [] [] [] [] [] []]; try reflexivity;
      destruct b as [[] [] [] [] [] [] [] []]; reflexivity.
Qed.

Lemma piece_plain (s : string) :
  plain_segment s -> piece_component (list_ascii_of_string s) = Some (Normal s).
Proof.
  intros [H1 [H2 [H3 _]]]; rewrite piece_general, string_of_list_ascii_of_string.
  - reflexivity.
  - intros E; apply H1; rewrite <- (string_of_list_ascii_of_string s), E; reflexivity.
  - intros E; apply H2; rewrite <- (string_of_list_ascii_of_string s), E; reflexivity.
  - intros E; apply H3; rewrite <- (string_of_list_ascii_of_string s), E; reflexivity.
Qed.

Lemma filter_map_plain (segs : list string) :
  Forall plain_segment segs ->
  CodexTransform.filter_map piece_component (map list_ascii_of_string segs) = map Normal segs.
Proof.
  induction 1 as [|s segs Hs Hp IH]; simpl; [reflexivity|].
  rewrite piece_plain by exact Hs; now rewrite IH.
Qed.

(** The components of an absolute path written from plain segments. *)
Lemma components_absolute (segs : list string) :
  Forall plain_segment segs ->
  components ("/" ++ join "/" segs) = RootDir :: map Normal segs.
Proof.
  intros Hp; unfold components.
  rewrite las_slash; simpl split_slash; rewrite ?Ascii.eqb_refl.
  destruct segs as [|s segs]; [reflexivity|].
  rewrite las_join_split by (discriminate || exact Hp).
  rewrite filter_map_plain by exact Hp; reflexivity.
Qed.

Lemma after_projects_normal (dirs : list string) (cs : list Component) :
  ~ In "projects" dirs ->
  component_after_projects (map Normal dirs ++ cs) = component_after_projects cs.
Proof.
  induction dirs as [|d dirs IH]; simpl; intros H; [reflexivity|].
  destruct (String.eqb_spec d "projects") as [->|_]; [exfalso; apply H; now left|].
  apply IH; tauto.
Qed.

(** [infer_project_hint] on an absolute path of plain segments: the segment
    after the first [projects] segment; with no [projects] segment, the
    name of the parent directory, or [unknown] for a file directly under
    the root. *)
Theorem infer_project_hint_absolute (segs : list string) :
  Forall plain_segment segs ->
  (forall dirs p rest, segs = dirs ++ "projects" :: p :: rest -> ~ In "projects" dirs ->
     infer_project_hint ("/" ++ join "/" segs) = p)
  /\ (~ In "projects" segs ->
      infer_project_hint ("/" ++ join "/" segs) =
      match rev segs with _ :: d :: _ => d | _ => "unknown" end).
Proof.
  intros Hp; unfold infer_project_hint, parent_file_name.
  rewrite components_absolute by exact Hp.
  split.
  - intros dirs p rest -> Hd; simpl.
    rewrite map_app, after_projects_normal by exact Hd; reflexivity.
  - intros Hn; simpl.
    rewrite <- (app_nil_r (map Normal segs)), after_projects_normal by exact Hn.
    rewrite app_nil_r, <- map_rev.
    destruct (rev segs) as [|f [|d r]]; reflexivity.
Qed.

Lemma infer_project_hint_absolute_witness :
  Forall plain_segment ["home"; "u"; ".claude"; "projects"; "-work-app"; "s.jsonl"] /\
  infer_project_hint ("/" ++ join "/" ["home"; "u"; ".claude"; "projects"; "-work-app"; "s.jsonl"])
    = "-work-app".
Proof.
  assert (Hp : Forall plain_segment ["home"; "u"; ".claude"; "projects"; "-work-app"; "s.jsonl"]).
  { repeat (apply Forall_cons; [plain_seg|]); apply Forall_nil. }
  split; [exact Hp|].
  apply (proj1 (infer_project_hint_absolute _ Hp) ["home"; "u"; ".claude"] "-work-app"
           ["s.jsonl"]); [reflexivity|].
  simpl; not_in.
Defined.

(** [infer_project_name] of an absolute path of plain segments is its last
    segment, and the path itself for the root. *)
Theorem infer_project_name_absolute (segs : list string) :
  Forall plain_segment segs ->
  infer_project_name ("/" ++ join "/" segs) = List.last segs ("/" ++ join "/" segs)%string.
Proof.
  intros Hp.
  destruct (rev segs) as [|f r] eqn:E.
  - apply (f_equal (@rev string)) in E; rewrite rev_involutive in E; subst; reflexivity.
  - assert (Hl : List.last segs ("/" ++ join "/" segs)%string = f).
    { rewrite <- (rev_involutive segs), E; simpl; apply last_last. }
    rewrite Hl.
    assert (Hf : In f segs) by (apply in_rev; rewrite E; now left).
    unfold infer_project_name, file_name; rewrite components_absolute by exact Hp.
    cbn [rev]; rewrite <- map_rev, E; cbn [map app].
    rewrite Forall_forall in Hp; destruct (Hp f Hf) as [Hne _].
    unfold is_empty; destruct (String.eqb_spec f EmptyString); [contradiction|reflexivity].
Qed.

Lemma infer_project_name_absolute_witness :
  Forall plain_segment ["work"; "app"] /\
  infer_project_name ("/" ++ join "/" ["work"; "app"]) = "app".
Proof.
  assert (Hp : Forall plain_segment ["work"; "app"]).
  { repeat (apply Forall_cons; [plain_seg|]); apply Forall_nil. }
  split; [exact Hp|].
  exact (infer_project_name_absolute _ Hp).
Defined.

Lemma rsplit_dot_app (l r : list ascii) (b a : list ascii) :
  rsplit_dot r = Some (b, a) -> rsplit_dot (l ++ r) = Some (l ++ b, a).
Proof.
  intros H; induction l as [|x l IH]; simpl; [exact H|]; now rewrite IH.
Qed.

(** The fallback session id of a [<stem>.jsonl] file under plain
    directories is its stem. *)
Theorem fallback_session_id_stem (dirs : list string) (stem : string) :
  Forall plain_segment dirs -> stem <> EmptyString ->
  ~ In "/"%char (list_ascii_of_string stem) ->
  fallback_session_id ("/" ++ join "/" (dirs ++ [(stem ++ ".jsonl")%string])) = stem.
Proof.
  intros Hd Hne Hs.
  assert (Hp : plain_segment (stem ++ ".jsonl")).
  { unfold plain_segment; rewrite las_app; repeat split.
    - destruct stem; [contradiction|discriminate].
    - destruct stem as [|a [|b r]]; [contradiction|discriminate|discriminate].
    - destruct stem as [|a [|b [|c r]]]; [contradiction|discriminate|discriminate|discriminate].
    - intros H; apply in_app_or in H as [H|H]; [contradiction|].
      simpl in H; repeat (destruct H as [H|H]; [discriminate H|]); exact H. }
  unfold fallback_session_id, file_stem, file_name.
  rewrite components_absolute by (apply Forall_app; split; [exact Hd | now constructor]).
  simpl; rewrite map_app, rev_app_distr; simpl.
  assert (Hdd : String.eqb (stem ++ ".jsonl") ".." = false).
  { apply String.eqb_neq; destruct Hp as [_ [_ [H _]]]; exact H. }
  rewrite Hdd, las_app.
  rewrite (rsplit_dot_app (list_ascii_of_string stem) (list_ascii_of_string ".jsonl")
             [] (list_ascii_of_string "jsonl")) by reflexivity.
  rewrite app_nil_r.
  destruct (list_ascii_of_string stem) as [|a l] eqn:E.
  - exfalso; apply Hne; rewrite <- (string_of_list_ascii_of_string stem), E; reflexivity.
  - rewrite <- E, string_of_list_ascii_of_string.
    unfold is_empty; destruct (String.eqb_spec stem EmptyString); [contradiction|reflexivity].
Qed.

Lemma fallback_session_id_stem_witness :
  Forall plain_segment ["home"; "projects"; "app"] /\ "abc-123" <> EmptyString /\
  ~ In "/"%char (list_ascii_of_string "abc-123") /\
  fallback_session_id ("/" ++ join "/" (["home"; "projects"; "app"] ++ [("abc-123" ++ ".jsonl")%string]))
    = "abc-123".
Proof.
  assert (Hp : Forall plain_segment ["home"; "projects"; "app"]).
  { repeat (apply Forall_cons; [plain_seg|]); apply Forall_nil. }
  assert (Hs : ~ In "/"%char (list_ascii_of_string "abc-123")).
  { simpl; not_in. }
  split; [exact Hp | split; [discriminate | split; [exact Hs|]]].
  apply fallback_session_id_stem; [exact Hp | discriminate | exact Hs].
Defined.

End UsagePathProps.

Module UsageIndexProps.
Import Str StrFacts UsageSync UsageIndex UsageSamples.

Lemma concat_read_lines (l : list ascii) : concat (read_lines l) = l.
Proof.
  induction l as [|a r IH]; simpl; [reflexivity|].
  destruct (Ascii.eqb a newline_char); simpl; [now rewrite IH|].
  destruct (read_lines r) as [|x xs]; simpl in *; [now subst | now rewrite IH].
Qed.

Lemma upsert_source_file_row_idem (db : UsageDb) p s m o l e :
  upsert_source_file_row (upsert_source_file_row db p s m o l e) p s m o l e
  = upsert_source_file_row db p s m o l e.
Proof.
  unfold upsert_source_file_row; simpl.
  set (row := {| sf_source_path := p; size_bytes := s; modified_unix_ms := m;
                 last_offset := o; last_line := l; parse_error_count := e |}).
  set (f := fun r : SourceFileRow => if String.eqb (sf_source_path r) p then row else r).
  assert (Hrow : String.eqb (sf_source_path row) p = true) by apply String.eqb_refl.
  destruct (existsb (fun r => String.eqb (sf_source_path r) p) (source_files db)) eqn:E.
  - assert (E' : existsb (fun r => String.eqb (sf_source_path r) p) (map f (source_files db)) = true).
    { apply existsb_exists in E as [x [Hx Hp]]; apply existsb_exists.
      exists row; split; [|exact Hrow]. apply in_map_iff; exists x; split; [|exact Hx].
      unfold f; now rewrite Hp. }
    rewrite E', map_map; f_equal; apply map_ext; intros r; unfold f.
    destruct (String.eqb (sf_source_path r) p) eqn:Er; [now rewrite Hrow | now rewrite Er].
  - assert (E' : existsb (fun r => String.eqb (sf_source_path r) p) (source_files db ++ [row]) = true).
    { rewrite existsb_app; cbn [existsb]; rewrite Hrow; apply orb_true_r. }
    rewrite E', map_app; cbn [map]; unfold f at 2; rewrite Hrow; f_equal; f_equal.
    rewrite <- (map_id (source_files db)) at 2. apply map_ext_in; intros r Hr.
    unfold f; destruct (String.eqb (sf_source_path r) p) eqn:Er; [|reflexivity].
    exfalso; assert (existsb (fun r => String.eqb (sf_source_path r) p) (source_files db) = true)
      by (apply existsb_exists; eauto). congruence.
Qed.

Lemma load_upsert (db : UsageDb) p s m o l e :
  load_source_file_row (upsert_source_file_row db p s m o l e) p
  = Some {| sf_source_path := p; size_bytes := s; modified_unix_ms := m;
            last_offset := o; last_line := l; parse_error_count := e |}.
Proof.
  unfold load_source_file_row, upsert_source_file_row; simpl.
  set (row := {| sf_source_path := p; size_bytes := s; modified_unix_ms := m;
                 last_offset := o; last_line := l; parse_error_count := e |}).
  assert (Hrow : String.eqb (sf_source_path row) p = true) by apply String.eqb_refl.
  destruct (existsb (fun r => String.eqb (sf_source_path r) p) (source_files db)) eqn:E.
  - induction (source_files db) as [|x xs IH]; [discriminate|].
    cbn [map find existsb] in *.
    destruct (String.eqb (sf_source_path x) p) eqn:Ex; [now rewrite Hrow|].
    rewrite Ex; auto.
  - rewrite find_app.
    assert (Hn : find (fun r => String.eqb (sf_source_path r) p) (source_files db) = None).
    { induction (source_files db) as [|x xs IH]; simpl in *; [reflexivity|].
      apply orb_false_iff in E as [E1 E2]; rewrite E1; auto. }
    rewrite Hn; cbn [find]; now rewrite Hrow.
Qed.

Lemma process_file_start_offset (db : UsageDb) p size mtime :
  start_offset (snd (process_file_start db p size mtime)) = 0%Z
  \/ (start_offset (snd (process_file_start db p size mtime)) <= size)%Z.
Proof.
  unfold process_file_start.
  destruct (load_source_file_row db p) as [row|]; [|now left].
  destruct (size <? last_offset row)%Z eqn:T; simpl; [now left|].
  destruct (_ && _); simpl; [now left|]. right; apply Z.ltb_ge in T; exact T.
Qed.

Lemma nodup_snoc {A} (l : list A) (x : A) : NoDup l -> ~ In x l -> NoDup (l ++ [x]).
Proof.
  induction l as [|y l IH]; simpl; intros Hd Hx; [constructor; [intros []|constructor]|].
  inversion Hd as [|? ? Hy Hl]; subst; constructor; [|apply IH; tauto].
  rewrite in_app_iff; simpl; intuition.
Qed.

(** Dropping rows of [usage_events] keeps their uids distinct. *)
Lemma event_uids_filter_nodup (keep : UsageEvent -> bool) (evs : list UsageEvent) :
  NoDup (map event_uid evs) -> NoDup (map event_uid (filter keep evs)).
Proof.
  induction evs as [|ev evs IH]; cbn [map filter]; intros Hd; [constructor|].
  apply NoDup_cons_iff in Hd as [Hnot Hrest].
  destruct (keep ev); cbn [map]; [|exact (IH Hrest)].
  apply NoDup_cons; [|exact (IH Hrest)].
  rewrite in_map_iff; intros [ev' [Hu Hin]]; apply filter_In in Hin.
  apply Hnot, in_map_iff; exists ev'; split; [exact Hu | apply Hin].
Qed.

Lemma filter_filter_same {A} (p : A -> bool) (l : list A) : filter p (filter p l) = filter p l.
Proof.
  induction l as [|x l IH]; simpl; [reflexivity|].
  destruct (p x) eqn:E; simpl; [rewrite E|]; now rewrite IH.
Qed.


Lemma insert_usage_event_spec {Cost} (d : UsageDb) (ev : ParsedUsageEvent Cost) :
  match insert_usage_event Cost d ev with
  | (d', true) =>
      usage_events d' = usage_events d
        ++ [{| event_uid := pe_event_uid Cost ev; ev_source_path := pe_source_path Cost ev;
               source_line := pe_source_line Cost ev |}]
      /\ ~ In (pe_event_uid Cost ev) (map event_uid (usage_events d))
      /\ source_files d' = source_files d
  | (d', false) => d' = d
  end.
Proof.
  unfold insert_usage_event.
  destruct (existsb _ _) eqn:E; [reflexivity|].
  split; [reflexivity|]; split; [|reflexivity].
  intros Hin; apply in_map_iff in Hin as [x [Hx Hin]].
  assert (existsb (fun e => String.eqb (event_uid e) (pe_event_uid Cost ev)) (usage_events d) = true)
    by (apply existsb_exists; exists x; split; [exact Hin | now apply String.eqb_eq]).
  congruence.
Qed.

Lemma parse_usage_event_source {Cost} fs fv cc rd line sp ln hint d sid ev d' :
  parse_usage_event Cost fs fv cc rd line sp ln hint d sid = (Ok (Some ev), d') ->
  pe_source_path Cost ev = sp.
Proof.
  unfold parse_usage_event.
  destruct (fs line); [|intros H; discriminate H].
  destruct (fv _); [|intros H; discriminate H].
  destruct (message Cost _) as [msg|]; [|intros H; discriminate H].
  destruct (usage msg) as [u|]; [|intros H; discriminate H].
  destruct (_ && _ && _ && _); [intros H; discriminate H|].
  destruct (parse_event_date rd _); [|intros H; discriminate H].
  intros H; injection H as <- _; reflexivity.
Qed.

Lemma upsert_events (d : UsageDb) p s m o l e :
  usage_events (upsert_source_file_row d p s m o l e) = usage_events d.
Proof. reflexivity. Qed.

Lemma other_rows_upsert (d : UsageDb) p s m o l e :
  other_rows p (upsert_source_file_row d p s m o l e) = other_rows p d.
Proof.
  unfold other_rows, upsert_source_file_row; cbn [source_files].
  destruct (existsb _ _).
  - induction (source_files d) as [|x xs IH]; [reflexivity|]; cbn [map filter].
    destruct (String.eqb (sf_source_path x) p) eqn:Ex; cbn [negb].
    + cbn [sf_source_path]; now rewrite String.eqb_refl.
    + now rewrite Ex, IH.
  - rewrite filter_app; cbn [filter sf_source_path]; rewrite String.eqb_refl; cbn [negb].
    apply app_nil_r.
Qed.

Lemma other_start (db : UsageDb) p size mtime :
  other_events p (fst (process_file_start db p size mtime)) = other_events p db
  /\ other_rows p (fst (process_file_start db p size mtime)) = other_rows p db.
Proof.
  unfold process_file_start.
  destruct (load_source_file_row db p); [|auto].
  destruct (_ || _); cbn [fst]; [|auto].
  unfold other_events, other_rows, delete_source; cbn [usage_events source_files].
  now rewrite !filter_filter_same.
Qed.

Lemma filter_filter_and {A} (f g : A -> bool) (l : list A) :
  filter f (filter g l) = filter (fun x => g x && f x) l.
Proof.
  induction l as [|x l IH]; simpl; [reflexivity|].
  destruct (g x); simpl; [destruct (f x); simpl; now rewrite IH | exact IH].
Qed.

Lemma existsb_eq_guard (keep : string -> bool) (e : string) (ps : list string) :
  existsb (fun p => negb (keep p) && String.eqb e p) ps
  = negb (keep e) && existsb (String.eqb e) ps.
Proof.
  induction ps as [|p ps IH]; simpl; [now rewrite andb_false_r|].
  destruct (String.eqb_spec e p) as [<-|Hne]; rewrite IH.
  - now destruct (keep e).
  - now rewrite andb_false_r.
Qed.

Lemma remove_fold (ex ps : list string) (d : UsageDb) :
  let gone x := existsb (fun p => negb (existsb (String.eqb p) ex) && String.eqb x p) ps in
  fold_left (fun d p => if existsb (String.eqb p) ex then d else delete_source d p) ps d
  = {| usage_events := filter (fun e => negb (gone (ev_source_path e))) (usage_events d);
       source_files := filter (fun r => negb (gone (sf_source_path r))) (source_files d) |}.
Proof.
  revert d; induction ps as [|p ps IH]; intros d gone; subst gone; simpl.
  - assert (Ht : forall A (l : list A), filter (fun _ => true) l = l)
      by (intros A l; induction l; simpl; congruence).
    rewrite !Ht; destruct d; reflexivity.
  - rewrite IH.
    destruct (existsb (String.eqb p) ex) eqn:Ek; cbn [negb andb orb].
    + reflexivity.
    + unfold delete_source; cbn [usage_events source_files]; rewrite !filter_filter_and.
      f_equal; apply filter_ext; intros x; now rewrite negb_orb.
Qed.

(** [remove_deleted_files]: a tracked file missing from [existing_paths]
    loses its [source_files] row and its [usage_events] rows; every other
    row is kept, including the events of a path that has no
    [source_files] row, which are kept even when the path is not on disk. *)
Theorem remove_deleted_files_spec (db : UsageDb) (existing_paths : list string) :
  let keep p := existsb (String.eqb p) existing_paths in
  let tracked p := existsb (fun r => String.eqb (sf_source_path r) p) (source_files db) in
  source_files (remove_deleted_files db existing_paths)
    = filter (fun r => keep (sf_source_path r)) (source_files db)
  /\ usage_events (remove_deleted_files db existing_paths)
    = filter (fun e => keep (ev_source_path e) || negb (tracked (ev_source_path e)))
             (usage_events db).
Proof.
  intros keep tracked; unfold remove_deleted_files; rewrite remove_fold.
  cbn [usage_events source_files]; split.
  - apply filter_ext_in; intros r Hr.
    rewrite existsb_eq_guard; fold (keep (sf_source_path r)).
    assert (Hin : existsb (String.eqb (sf_source_path r)) (map sf_source_path (source_files db)) = true).
    { apply existsb_exists; exists (sf_source_path r); split;
        [now apply in_map | apply String.eqb_refl]. }
    rewrite Hin; now destruct (keep (sf_source_path r)).
  - apply filter_ext; intros e.
    rewrite existsb_eq_guard; fold (keep (ev_source_path e)).
    assert (Ht : existsb (String.eqb (ev_source_path e)) (map sf_source_path (source_files db))
                 = tracked (ev_source_path e)).
    { unfold tracked; induction (source_files db) as [|r rs IH]; [reflexivity|].
      cbn [map existsb]; now rewrite IH, String.eqb_sym. }
    rewrite Ht; now destruct (keep (ev_source_path e)), (tracked (ev_source_path e)).
Qed.

Section Run.
Variable Cost : Type.
Variable from_str : string -> result CodexTransform.Value string.
Variable from_value : CodexTransform.Value -> result (JsonlEntry Cost) string.
Variable calculate_cost : string -> UsageData -> Cost.
Variable rfc3339_local_date : string -> option string.
Variable valid_utf8 : list ascii -> bool.
Variables read_error seek_error : string.

Local Abbreviation step := (step_line Cost from_str from_value calculate_cost rfc3339_local_date).
Local Abbreviation run := (run_lines Cost from_str from_value calculate_cost rfc3339_local_date valid_utf8).
Local Abbreviation pfile := (process_file Cost from_str from_value calculate_cost
                           rfc3339_local_date valid_utf8 read_error seek_error).

(** Case analysis of one [step_line], the same in every branch. *)
Ltac step_cases :=
  unfold step_line;
  lazymatch goal with
  | |- context [is_empty (trim ?x)] => destruct (is_empty (trim x))
  end; [simpl; auto|];
  lazymatch goal with
  | |- context [parse_usage_event ?a ?b ?c ?d ?e ?f ?g ?h ?i ?j] =>
      destruct (parse_usage_event a b c d e f g h i j) as [[[ev|]|err] disc]
  end;
  [ lazymatch goal with
    | |- context [insert_usage_event ?t ?e] => destruct (insert_usage_event t e) as [tx1 [|]] eqn:Hins
    end | | ];
  destruct (_ <=? _)%Z; simpl; auto.

Lemma step_line_cursor sp hint sid size mtime be ln st :
  current_offset (step sp hint sid size mtime be ln st) = (current_offset st + Z.of_nat (length ln))%Z
  /\ current_line (step sp hint sid size mtime be ln st) = (current_line st + 1)%Z
  /\ lines_processed (counts (step sp hint sid size mtime be ln st)) = (lines_processed (counts st) + 1)%Z.
Proof. step_cases. Qed.

Lemma run_lines_cursor sp hint sid size mtime be cancel lines :
  (forall j, cancel j = false) ->
  forall i st st', run sp hint sid size mtime be cancel i lines st = Ok st' ->
  current_offset st' = (current_offset st + Z.of_nat (length (concat lines)))%Z.
Proof.
  intros Hc; induction lines as [|ln rest IH]; intros i st st' H; simpl in H.
  - injection H as <-; simpl; lia.
  - rewrite Hc in H; destruct (negb (valid_utf8 ln)); [discriminate|].
    apply IH in H; rewrite H.
    destruct (step_line_cursor sp hint sid size mtime be ln st) as [Ho _].
    rewrite Ho; cbn [concat]; rewrite length_app; lia.
Qed.

(** A second scan of a completely indexed, unchanged file gives back the
    same [UsageDb]: the tables as far as this model keeps their columns
    (it leaves out [last_scanned_at], which the indexer writes but never
    reads). *)
Lemma process_file_rescan_model_fixpoint (db db1 : UsageDb) (path : string)
  (content : list ascii) (size mtime : Z) (c : FileProcessResult) (cancel : nat -> bool) :
  Z.of_nat (length content) = size ->
  pfile db path content size mtime (fun _ => false) = (db1, Ok c) ->
  pfile db1 path content size mtime cancel = (db1, Ok zero_counts).
Proof.
  intros Hsz H.
  unfold process_file in H.
  pose proof (process_file_start_offset db path size mtime) as Ho.
  destruct (process_file_start db path size mtime) as [db0 cur] eqn:Hs; simpl in Ho.
  destruct (start_offset cur <? 0)%Z eqn:Hn; [discriminate|]; apply Z.ltb_ge in Hn.
  match type of H with
  | context [run_lines _ _ _ _ _ _ ?a ?b ?c ?d ?e ?f ?g ?i ?l ?st] =>
      destruct (run_lines _ _ _ _ _ _ a b c d e f g i l st) as [st'|e'] eqn:Hr; [|discriminate]
  end.
  injection H as <- <-.
  apply run_lines_cursor in Hr; [|reflexivity]; simpl in Hr.
  rewrite concat_read_lines, length_skipn in Hr.
  assert (Hoff : current_offset st' = size) by lia.
  unfold process_file, process_file_start; rewrite load_upsert; cbn [size_bytes modified_unix_ms
    last_offset last_line parse_error_count start_offset start_line base_parse_errors].
  rewrite Hoff, Z.ltb_irrefl, Z.eqb_refl, Z.eqb_refl; cbn [orb andb negb start_offset start_line base_parse_errors].
  assert (Hpos : (size <? 0)%Z = false) by (apply Z.ltb_ge; lia).
  rewrite Hpos.
  rewrite skipn_all2 by lia; cbn [read_lines run_lines txn current_offset current_line counts zero_counts UsageIndex.parse_errors].
  rewrite Z.add_0_r, upsert_source_file_row_idem; reflexivity.
Qed.

(** A file indexed completely (no cancellation, no error) and then
    scanned again with the same bytes, size and modification time: the
    second scan reports zero counts, whatever the cancellation flag does,
    adds or removes no [usage_events] row, and every [source_files] row
    reads back through [load_source_file_row] exactly as before. *)
Theorem process_file_rescan_reads_nothing (db db1 : UsageDb) (path : string)
  (content : list ascii) (size mtime : Z) (c : FileProcessResult) (cancel : nat -> bool) :
  Z.of_nat (length content) = size ->
  pfile db path content size mtime (fun _ => false) = (db1, Ok c) ->
  let r := pfile db1 path content size mtime cancel in
  snd r = Ok zero_counts
  /\ usage_events (fst r) = usage_events db1
  /\ forall q, load_source_file_row (fst r) q = load_source_file_row db1 q.
Proof.
  intros Hsz H r; unfold r.
  rewrite (process_file_rescan_model_fixpoint db db1 path content size mtime c cancel Hsz H).
  cbn [fst snd]; auto.
Qed.

Lemma run_lines_inv (P : LoopState -> Prop) (Q : UsageDb -> Prop)
  sp hint sid size mtime be cancel :
  (forall ln st, P st -> P (step sp hint sid size mtime be ln st)) ->
  (forall st, P st -> Q (committed st)) ->
  forall lines i st, P st ->
  match run sp hint sid size mtime be cancel i lines st with
  | Ok st' => P st'
  | Err d => Q d
  end.
Proof.
  intros Hs Hq lines; induction lines as [|ln rest IH]; intros i st Hp; simpl; [exact Hp|].
  destruct (cancel i); [exact Hp|].
  destruct (negb (valid_utf8 ln)); [now apply Hq|].
  apply IH, Hs, Hp.
Qed.

(** The branches of one [step_line]. *)
Ltac step_split :=
  unfold step_line;
  lazymatch goal with |- context [is_empty (trim ?x)] => destruct (is_empty (trim x)) end;
  [ | lazymatch goal with |- context [parse_usage_event ?a ?b ?c ?d ?e ?f ?g ?h ?i ?j] =>
        destruct (parse_usage_event a b c d e f g h i j) as [[[ev|]|err] disc] eqn:Hpe end;
      [ lazymatch goal with |- context [insert_usage_event ?C ?t ?e] =>
          pose proof (insert_usage_event_spec t e) as Hsp;
          destruct (insert_usage_event C t e) as [tx1 [|]] end | | ];
      destruct (_ <=? _)%Z ];
  cbn [committed txn counts current_offset current_line batch_lines discovered bump
       lines_processed entries_indexed entries_ignored UsageIndex.parse_errors] in *.

Lemma step_line_nodup sp hint sid size mtime be ln st :
  NoDup (map event_uid (usage_events (committed st))) ->
  NoDup (map event_uid (usage_events (txn st))) ->
  NoDup (map event_uid (usage_events (committed (step sp hint sid size mtime be ln st))))
  /\ NoDup (map event_uid (usage_events (txn (step sp hint sid size mtime be ln st)))).
Proof.
  intros H1 H2; step_split; rewrite ?upsert_events;
    try (lazymatch type of Hsp with _ /\ _ => destruct Hsp as [He [Hn _]] end; rewrite He, map_app; split; try exact H1;
         apply nodup_snoc; assumption);
    try (subst tx1); auto.
Qed.

Lemma step_line_counts sp hint sid size mtime be ln st (L0 line0 : Z) :
  Z.of_nat (length (usage_events (txn st))) = (L0 + entries_indexed (counts st))%Z ->
  current_line st = (line0 + lines_processed (counts st))%Z ->
  Z.of_nat (length (usage_events (txn (step sp hint sid size mtime be ln st))))
    = (L0 + entries_indexed (counts (step sp hint sid size mtime be ln st)))%Z
  /\ current_line (step sp hint sid size mtime be ln st)
    = (line0 + lines_processed (counts (step sp hint sid size mtime be ln st)))%Z.
Proof.
  intros H1 H2; step_split; rewrite ?upsert_events;
    try (lazymatch type of Hsp with _ /\ _ => destruct Hsp as [He [Hn _]] end; rewrite He, length_app; cbn [length]);
    try (subst tx1); split; lia.
Qed.

Lemma step_line_other sp hint sid size mtime be ln st E0 R0 :
  other_events sp (committed st) = E0 -> other_events sp (txn st) = E0 ->
  other_rows sp (committed st) = R0 -> other_rows sp (txn st) = R0 ->
  let st' := step sp hint sid size mtime be ln st in
  other_events sp (committed st') = E0 /\ other_events sp (txn st') = E0
  /\ other_rows sp (committed st') = R0 /\ other_rows sp (txn st') = R0.
Proof.
  intros H1 H2 H3 H4 st'; subst st'; step_split;
    try (lazymatch type of Hsp with _ /\ _ => destruct Hsp as [He [_ Hr]] end;
         assert (He' : other_events sp tx1 = E0)
           by (unfold other_events in *; rewrite He, filter_app;
               cbn [filter ev_source_path]; rewrite (parse_usage_event_source _ _ _ _ _ _ _ _ _ _ _ _ Hpe),
               String.eqb_refl; cbn [negb]; now rewrite app_nil_r);
         assert (Hr' : other_rows sp tx1 = R0) by (unfold other_rows in *; now rewrite Hr));
    try (subst tx1);
    unfold other_events in *; rewrite ?upsert_events; fold (other_events sp) in *;
    rewrite ?other_rows_upsert; auto 8.
Qed.

(** [process_file] keeps [event_uid] a key of [usage_events]: if no two
    rows share a uid before the scan, none do after it, whether the scan
    ends normally, on a seek error or on a read error. *)
Theorem process_file_event_uids_unique (db : UsageDb) (path : string)
  (content : list ascii) (size mtime : Z) (cancel : nat -> bool) :
  NoDup (map event_uid (usage_events db)) ->
  NoDup (map event_uid (usage_events (fst (pfile db path content size mtime cancel)))).
Proof.
  intros H; unfold process_file.
  assert (H0 : NoDup (map event_uid (usage_events (fst (process_file_start db path size mtime))))).
  { unfold process_file_start; destruct (load_source_file_row db path); [|exact H].
    destruct (_ || _); [apply event_uids_filter_nodup; exact H | exact H]. }
  destruct (process_file_start db path size mtime) as [db0 cur]; cbn [fst] in H0.
  destruct (start_offset cur <? 0)%Z; [exact H0|].
  lazymatch goal with
  | |- context [run_lines _ _ _ _ _ _ ?sp ?h ?sid ?sz ?mt ?be ?cn ?i ?l ?s0] =>
      pose proof (run_lines_inv
        (fun st => NoDup (map event_uid (usage_events (committed st)))
                   /\ NoDup (map event_uid (usage_events (txn st))))
        (fun d => NoDup (map event_uid (usage_events d))) sp h sid sz mt be cn
        (fun ln st Hp => step_line_nodup sp h sid sz mt be ln st (proj1 Hp) (proj2 Hp))
        (fun st Hp => proj1 Hp) l i s0 (conj H0 H0)) as Hr;
      destruct (run_lines _ _ _ _ _ _ sp h sid sz mt be cn i l s0)
  end; cbn [fst]; [rewrite upsert_events; exact (proj2 Hr) | exact Hr].
Qed.

(** The counters [process_file] reports agree with the database it
    leaves: [entries_indexed] is the number of rows added to
    [usage_events] after the reset decision, and the stored line cursor and
    error count of the file are the starting ones plus [lines_processed]
    and [parse_errors]. *)
Theorem process_file_counts (db db1 : UsageDb) (path : string) (content : list ascii)
  (size mtime : Z) (cancel : nat -> bool) (c : FileProcessResult) :
  pfile db path content size mtime cancel = (db1, Ok c) ->
  let (db0, cur) := process_file_start db path size mtime in
  Z.of_nat (length (usage_events db1))
    = (Z.of_nat (length (usage_events db0)) + entries_indexed c)%Z
  /\ option_map last_line (load_source_file_row db1 path)
     = Some (start_line cur + lines_processed c)%Z
  /\ option_map parse_error_count (load_source_file_row db1 path)
     = Some (base_parse_errors cur + UsageIndex.parse_errors c)%Z.
Proof.
  unfold process_file; destruct (process_file_start db path size mtime) as [db0 cur].
  destruct (start_offset cur <? 0)%Z; [intros H; discriminate H|].
  lazymatch goal with
  | |- context [run_lines _ _ _ _ _ _ ?sp ?h ?sid ?sz ?mt ?be ?cn ?i ?l ?s0] =>
      pose proof (run_lines_inv
        (fun st => Z.of_nat (length (usage_events (txn st)))
                     = (Z.of_nat (length (usage_events db0)) + entries_indexed (counts st))%Z
                   /\ current_line st = (start_line cur + lines_processed (counts st))%Z)
        (fun _ => True) sp h sid sz mt be cn
        (fun ln st Hp => step_line_counts sp h sid sz mt be ln st _ _ (proj1 Hp) (proj2 Hp))
        (fun _ _ => I) l i s0) as Hr;
      destruct (run_lines _ _ _ _ _ _ sp h sid sz mt be cn i l s0) as [st'|d]
  end; [|intros H; discriminate H].
  intros H; injection H as <- <-.
  destruct Hr as [H1 H2]; [cbn; split; lia|].
  rewrite load_upsert, upsert_events; cbn [option_map last_line parse_error_count].
  rewrite H2; split; [exact H1|split; reflexivity].
Qed.

(** [process_file] on one path never touches another file's data: the
    [usage_events] rows and the [source_files] rows of every other source
    path are the same after the scan, however it ends. *)
Theorem process_file_other_paths (db : UsageDb) (path : string)
  (content : list ascii) (size mtime : Z) (cancel : nat -> bool) :
  other_events path (fst (pfile db path content size mtime cancel)) = other_events path db
  /\ other_rows path (fst (pfile db path content size mtime cancel)) = other_rows path db.
Proof.
  unfold process_file.
  pose proof (other_start db path size mtime) as [He0 Hr0].
  destruct (process_file_start db path size mtime) as [db0 cur]; cbn [fst] in He0, Hr0.
  destruct (start_offset cur <? 0)%Z; [now split|].
  lazymatch goal with
  | |- context [run_lines _ _ _ _ _ _ ?sp ?h ?sid ?sz ?mt ?be ?cn ?i ?l ?s0] =>
      pose proof (run_lines_inv
        (fun st => other_events path (committed st) = other_events path db
                   /\ other_events path (txn st) = other_events path db
                   /\ other_rows path (committed st) = other_rows path db
                   /\ other_rows path (txn st) = other_rows path db)
        (fun d => other_events path d = other_events path db
                  /\ other_rows path d = other_rows path db) sp h sid sz mt be cn
        (fun ln st Hp => step_line_other sp h sid sz mt be ln st _ _
                           (proj1 Hp) (proj1 (proj2 Hp)) (proj1 (proj2 (proj2 Hp)))
                           (proj2 (proj2 (proj2 Hp))))
        (fun st Hp => conj (proj1 Hp) (proj1 (proj2 (proj2 Hp)))) l i s0) as Hr;
      destruct (run_lines _ _ _ _ _ _ sp h sid sz mt be cn i l s0)
  end; cbn [fst].
  - destruct Hr as [_ [He [_ Hr]]]; [cbn; tauto|].
    rewrite other_rows_upsert; unfold other_events in *; rewrite upsert_events; tauto.
  - apply Hr; cbn; tauto.
Qed.

End Run.
Lemma process_file_rescan_reads_nothing_witness :
  let r1 := sample_process_file sample_db "/home/u/s.jsonl" sample_content 8 42 (fun _ => false) in
  let r2 := sample_process_file (fst r1) "/home/u/s.jsonl" sample_content 8 42 (fun _ => true) in
  Z.of_nat (length sample_content) = 8%Z
  /\ r1 = (fst r1, Ok {| lines_processed := 2; entries_indexed := 1; entries_ignored := 0;
                         UsageIndex.parse_errors := 1 |})
  /\ snd r2 = Ok zero_counts
  /\ usage_events (fst r2) = usage_events (fst r1).
Proof.
  intros r1 r2.
  assert (H : r1 = (fst r1, Ok {| lines_processed := 2; entries_indexed := 1; entries_ignored := 0;
                                  UsageIndex.parse_errors := 1 |})) by (vm_compute; reflexivity).
  split; [reflexivity|]; split; [exact H|].
  destruct (process_file_rescan_reads_nothing unit sample_from_str sample_from_value
              (fun _ _ => tt) (fun _ => None) (fun _ => true)
              "stream did not contain valid UTF-8" "Invalid argument (os error 22)"
              sample_db (fst r1) "/home/u/s.jsonl" sample_content 8 42 _ (fun _ => true)
              eq_refl H) as [Hc [He _]].
  split; [exact Hc | exact He].
Defined.

Lemma process_file_event_uids_unique_witness :
  NoDup (map event_uid (usage_events sample_db))
  /\ NoDup (map event_uid (usage_events
       (fst (sample_process_file sample_db "/home/u/s.jsonl" sample_content 8 42 (fun _ => false))))).
Proof.
  assert (H : NoDup (map event_uid (usage_events sample_db)))
    by (cbn; constructor; [intros [] | constructor]).
  split; [exact H|].
  exact (process_file_event_uids_unique unit sample_from_str sample_from_value (fun _ _ => tt)
           (fun _ => None) (fun _ => true) "stream did not contain valid UTF-8"
           "Invalid argument (os error 22)" sample_db "/home/u/s.jsonl" sample_content 8 42
           (fun _ => false) H).
Defined.

Lemma process_file_counts_witness :
  let r1 := sample_process_file sample_db "/home/u/s.jsonl" sample_content 8 42
              (fun i => Nat.leb 1 i) in
  r1 = (fst r1, Ok {| lines_processed := 1; entries_indexed := 1; entries_ignored := 0;
                      UsageIndex.parse_errors := 0 |})
  /\ Z.of_nat (length (usage_events (fst r1))) = 2%Z
  /\ option_map last_line (load_source_file_row (fst r1) "/home/u/s.jsonl") = Some 1%Z
  /\ option_map parse_error_count (load_source_file_row (fst r1) "/home/u/s.jsonl") = Some 0%Z.
Proof.
  intros r1.
  assert (H : r1 = (fst r1, Ok {| lines_processed := 1; entries_indexed := 1; entries_ignored := 0;
                                  UsageIndex.parse_errors := 0 |})) by (vm_compute; reflexivity).
  split; [exact H|].
  exact (process_file_counts unit sample_from_str sample_from_value (fun _ _ => tt)
           (fun _ => None) (fun _ => true) "stream did not contain valid UTF-8"
           "Invalid argument (os error 22)" sample_db (fst r1) "/home/u/s.jsonl" sample_content
           8 42 (fun i => Nat.leb 1 i) _ H).
Defined.

End UsageIndexProps.

Module WebSessionRemoveProps.
Import Str WebSession.

Ltac eqb_neq_rw :=
  repeat match goal with
         | H : ?a <> ?b |- context [String.eqb ?a ?b] => rewrite (proj2 (String.eqb_neq a b) H)
         | H : ?a <> ?b |- context [String.eqb ?b ?a] =>
             rewrite (proj2 (String.eqb_neq b a) (not_eq_sym H))
         end.

Lemma existsb_filter_neq (l : list string) (r ws : string) :
  existsb (String.eqb r) (filter (fun k => negb (String.eqb k ws)) l)
  = existsb (String.eqb r) l && negb (String.eqb r ws).
Proof.
  induction l as [|k l IH]; simpl; [reflexivity|].
  destruct (String.eqb_spec k ws) as [->|Hk], (String.eqb_spec r ws) as [->|Hr]; simpl;
    rewrite ?IH, ?String.eqb_refl; eqb_neq_rw; simpl;
    rewrite ?andb_false_r, ?andb_true_r; try reflexivity.
Qed.

Lemma alias_get_filter_not (m : list (string * string)) (r ws : string) :
  alias_get (filter (fun kv => negb (String.eqb (snd kv) ws)) m) r <> Some ws.
Proof.
  unfold alias_get; induction m as [|[k v] m IH]; simpl; [discriminate|].
  destruct (String.eqb_spec v ws) as [->|Hv]; simpl; [exact IH|].
  destruct (String.eqb k r); simpl; [|exact IH].
  intros H; injection H as H; contradiction.
Qed.

Lemma alias_get_filter_keep (m : list (string * string)) (r ws : string) :
  alias_get m r <> Some ws ->
  alias_get (filter (fun kv => negb (String.eqb (snd kv) ws)) m) r = alias_get m r.
Proof.
  unfold alias_get; induction m as [|[k v] m IH]; simpl; [reflexivity|].
  destruct (String.eqb k r) eqn:Ek; simpl.
  - intros H; destruct (String.eqb_spec v ws) as [->|Hv]; [contradiction|]; simpl.
    now rewrite Ek.
  - intros H; destruct (negb (String.eqb v ws)); simpl; [rewrite Ek|]; auto.
Qed.

Lemma find_filter_other (m : list (string * string)) (ws ws' : string) :
  ws' <> ws ->
  find (fun kv => String.eqb (snd kv) ws') (filter (fun kv => negb (String.eqb (snd kv) ws)) m)
  = find (fun kv => String.eqb (snd kv) ws') m.
Proof.
  intros Hne; induction m as [|[k v] m IH]; simpl; [reflexivity|].
  destruct (String.eqb_spec v ws) as [->|Hv]; simpl.
  - rewrite (proj2 (String.eqb_neq ws ws')) by congruence; exact IH.
  - destruct (String.eqb v ws'); [reflexivity | exact IH].
Qed.

Lemma find_filter_none (m : list (string * string)) (ws : string) :
  find (fun kv => String.eqb (snd kv) ws) (filter (fun kv => negb (String.eqb (snd kv) ws)) m)
  = None.
Proof.
  induction m as [|[k v] m IH]; simpl; [reflexivity|].
  destruct (String.eqb v ws) eqn:E; simpl; [exact IH|]; now rewrite E.
Qed.

(** After [remove_websocket_session_state st ws], no requested session id
    resolves to [ws] any more and [ws] has no provider session id and no
    cancellation sender; every resolution that did not give [ws] is
    unchanged, and the provider session id of every other websocket session
    is the same as before. *)
Theorem remove_websocket_session_forgets (st : AppState) (ws : string) :
  let st' := remove_websocket_session_state st ws in
  (forall r, resolve_websocket_session_id st' r <> Some ws)
  /\ (forall r, resolve_websocket_session_id st r <> Some ws ->
       resolve_websocket_session_id st' r = resolve_websocket_session_id st r)
  /\ resolve_provider_session_id_for_websocket st' ws = None
  /\ (forall ws', ws' <> ws ->
       resolve_provider_session_id_for_websocket st' ws'
       = resolve_provider_session_id_for_websocket st ws')
  /\ ~ In ws (active_cancellations st').
Proof.
  intros st'; subst st'; split; [|split; [|split; [|split]]].
  - intros r; unfold resolve_websocket_session_id; cbn [active_sessions session_aliases
      remove_websocket_session_state].
    destruct (is_empty (trim r)); [discriminate|].
    rewrite existsb_filter_neq.
    destruct (String.eqb_spec r ws) as [->|Hr]; rewrite ?andb_false_r.
    + apply alias_get_filter_not.
    + destruct (existsb _ _); simpl; [congruence | apply alias_get_filter_not].
  - intros r H; unfold resolve_websocket_session_id in *; cbn [active_sessions session_aliases
      remove_websocket_session_state].
    destruct (is_empty (trim r)); [reflexivity|].
    rewrite existsb_filter_neq.
    destruct (existsb (String.eqb r) (active_sessions st)) eqn:Ea; simpl.
    + destruct (String.eqb_spec r ws) as [->|Hr]; [contradiction|reflexivity].
    + now apply alias_get_filter_keep.
  - unfold resolve_provider_session_id_for_websocket; cbn [session_aliases
      remove_websocket_session_state]; now rewrite find_filter_none.
  - intros ws' Hne; unfold resolve_provider_session_id_for_websocket; cbn [session_aliases
      remove_websocket_session_state]; now rewrite find_filter_other.
  - cbn [active_cancellations remove_websocket_session_state]; intros Hin.
    apply filter_In in Hin as [_ Hin]; now rewrite String.eqb_refl in Hin.
Qed.

End WebSessionRemoveProps.

Module AgentMetricsProps.
Import CodexTransform AgentMetrics.

Section Props.
Variable F : Type.
Variable f_zero : F.
Variable f_add : F -> F -> F.
Variable f_pos : F -> bool.
Variable as_f64 : Value -> option F.
Variable from_str : string -> option Value.
Variable parse_from_rfc3339 : string -> option Z.

Local Abbreviation step := (metrics_step F f_add as_f64 from_str parse_from_rfc3339).

Local Abbreviation parses := (parses from_str).
Local Abbreviation has_time := (has_time from_str parse_from_rfc3339).
Local Abbreviation times_inv := (times_inv F).

Lemma metrics_step_inv (acc : Acc F) (n : nat) (b : bool) (l : string) :
  acc_message_count F acc = Z.of_nat n -> times_inv acc b ->
  acc_message_count F (step acc l) = Z.of_nat (n + if parses l then 1 else 0)
  /\ times_inv (step acc l) (b || has_time l).
Proof.
  intros Hc Ht; unfold metrics_step, parses, has_time.
  destruct (from_str l) as [json|]; [|rewrite Nat.add_0_r, orb_false_r; auto].
  cbn [acc_message_count acc_start_time acc_end_time].
  split; [lia|].
  unfold times_inv in *.
  destruct (bind (get_str "timestamp" json) parse_from_rfc3339) as [t|];
    cbn [fst snd acc_start_time acc_end_time]; [|rewrite orb_false_r; exact Ht].
  rewrite orb_true_r.
  destruct (acc_start_time F acc) as [s|], (acc_end_time F acc) as [e|]; try contradiction.
  - destruct Ht as [_ Hse]; destruct (t <? s)%Z eqn:E1, (e <? t)%Z eqn:E2;
      rewrite ?Z.ltb_lt, ?Z.ltb_ge in *; split; auto; lia.
  - split; [reflexivity | lia].
Qed.

Lemma fold_metrics_inv (ls : list string) (acc : Acc F) (n : nat) (b : bool) :
  acc_message_count F acc = Z.of_nat n -> times_inv acc b ->
  acc_message_count F (fold_left step ls acc) = Z.of_nat (n + length (filter parses ls))
  /\ times_inv (fold_left step ls acc) (b || existsb has_time ls).
Proof.
  revert acc n b; induction ls as [|l ls IH]; intros acc n b Hc Ht; simpl.
  - rewrite Nat.add_0_r, orb_false_r; auto.
  - destruct (metrics_step_inv acc n b l Hc Ht) as [Hc' Ht'].
    destruct (IH _ _ _ Hc' Ht') as [H1 H2]; split.
    + rewrite H1; f_equal; destruct (parses l); simpl; lia.
    + now rewrite orb_assoc.
Qed.

(** [AgentRunMetrics::from_jsonl]: [message_count] is the number of lines
    that parse as JSON, or [None] when there is none; [duration_ms] is
    [None] exactly when no such line has an RFC 3339 [timestamp], and is
    never negative otherwise. *)
Theorem from_jsonl_count_duration (jsonl_content : string) :
  let m := from_jsonl F f_zero f_add f_pos as_f64 from_str parse_from_rfc3339 jsonl_content in
  let n := length (filter parses (lines jsonl_content)) in
  message_count F m = (if Nat.eqb n 0 then None else Some (Z.of_nat n))
  /\ (duration_ms F m = None <-> existsb has_time (lines jsonl_content) = false)
  /\ (forall d, duration_ms F m = Some d -> (0 <= d)%Z).
Proof.
  intros m n; subst m n; unfold from_jsonl.
  destruct (fold_metrics_inv (lines jsonl_content)
              {| acc_total_tokens := 0; acc_cost_usd := f_zero; acc_message_count := 0;
                 acc_start_time := None; acc_end_time := None |} 0 false eq_refl eq_refl)
    as [Hc Ht].
  cbn [duration_ms message_count].
  revert Hc Ht.
  generalize (fold_left step (lines jsonl_content)
               {| acc_total_tokens := 0; acc_cost_usd := f_zero; acc_message_count := 0;
                  acc_start_time := None; acc_end_time := None |}).
  intros acc Hc Ht; simpl in Hc, Ht; rewrite Hc.
  split.
  - destruct (length (filter parses (lines jsonl_content))) as [|k]; [reflexivity|].
    simpl; replace (0 <? Z.pos (Pos.of_succ_nat k))%Z with true by reflexivity; reflexivity.
  - unfold times_inv in Ht.
    destruct (acc_start_time F acc) as [s|], (acc_end_time F acc) as [e|]; try contradiction.
    + destruct Ht as [Hb Hse]; split; [split; [discriminate | congruence]|].
      intros d Hd; injection Hd as <-; apply Z.quot_pos; lia.
    + split; [split; auto|]; discriminate.
Qed.

End Props.
End AgentMetricsProps.
